(** * The persistent-state hook, the event-subscription utility and the
      router table of the customer-management application

    A shallow embedding of [src/shared/hooks/useLocalStorage.ts] and
    [src/app/router.tsx].

    The hook is stateful code that runs against the browser: the keyed
    persistence store ([window.localStorage]), the listener lists of the
    event targets, the console, and React's per-instance state cells.  All of
    these live in one explicit [World]; the functions of the source become
    computations in a state-and-exception monad over it, so that a JavaScript
    [throw], a [try]/[catch] and the mutations made before a fault are all
    visible. *)

From Stdlib Require Import ZArith NArith Ascii Lia.
From stdpp Require Import base option list strings gmap.

Set Default Proof Using "Type".
Open Scope string_scope.
Open Scope list_scope.

(** ** JavaScript faults and completions *)

Inductive JsError : Type :=
| ReferenceError (msg : string)
| SyntaxError (msg : string)
| TypeError (msg : string)
| QuotaExceededError
| Error (msg : string).

(** The completion of a JavaScript call: a value, or a thrown fault. *)
Inductive Result (A : Type) : Type :=
| Ok (a : A)
| Throw (e : JsError).
Arguments Ok {A} a.
Arguments Throw {A} e.

(** ** The Web Storage area behind [window.localStorage]

    Entries are text under text keys.  The browser bounds the area; [quota]
    is that bound in characters ([None]: no bound), and a write that would
    exceed it raises [QuotaExceededError] and leaves the area as it was. *)

Record Storage : Type := mkStorage {
  items : gmap string string;
  quota : option nat
}.

Definition storage_size (m : gmap string string) : nat :=
  map_fold (fun k v acc => String.length k + String.length v + acc) 0 m.

Definition fits (q : option nat) (m : gmap string string) : bool :=
  match q with
  | None => true
  | Some n => bool_decide (storage_size m <= n)
  end.

Definition Storage_getItem (k : string) (st : Storage) : option string :=
  items st !! k.

Definition Storage_setItem (k v : string) (st : Storage) : Result Storage :=
  let items' := <[k := v]> (items st) in
  if fits (quota st) items' then Ok (mkStorage items' (quota st))
  else Throw QuotaExceededError.

Definition Storage_removeItem (k : string) (st : Storage) : Storage :=
  mkStorage (delete k (items st)) (quota st).

(** ** Events, targets and listeners *)

(** A [StorageEvent] or [CustomEvent] as the hook looks at it: its type and
    its [key] property ([None] when the property is [null] or missing). *)
Record Event : Type := mkEvent {
  ev_type : string;
  ev_key : option string
}.

(** The handlers that get subscribed.  [HandleStorageChange id] is the
    [handleStorageChange] closure of the hook instance [id]; [UserHandler n]
    is a handler of calling code, which touches nothing modelled here. *)
Inductive Handler : Type :=
| HandleStorageChange (id : nat)
| UserHandler (n : nat).

Record Listener : Type := mkListener {
  l_type : string;
  l_handler : Handler;
  l_options : option bool
}.

#[global] Instance Handler_eq_dec : EqDecision Handler.
Proof. solve_decision. Defined.
#[global] Instance Listener_eq_dec : EqDecision Listener.
Proof. solve_decision. Defined.

(** An object a ref can point to: an element, a document or a media query
    list.  [has_addEventListener] is false for the objects that lack the
    method (media query lists of older engines). *)
Record DomObject : Type := mkDomObject {
  has_addEventListener : bool;
  obj_listeners : list Listener
}.

Inductive Target : Type :=
| TWindow
| TObject (n : nat).

(** A React ref: [current] is [None] while nothing is mounted under it. *)
Record RefObject : Type := mkRef { current : option nat }.

(** ** What the outside can observe, in the order it happened (newest first) *)

Inductive Effect : Type :=
| ConsoleWarn (msg : string) (err : option JsError)
| ConsoleError (msg : string) (err : JsError)
| GetItem (k : string)
| SetItem (k v : string)
| RemoveItem (k : string)
| AddEventListener (t : Target) (l : Listener)
| RemoveEventListener (t : Target) (l : Listener)
| DispatchEvent (ev : Event).

Definition is_console (e : Effect) : bool :=
  match e with ConsoleWarn _ _ | ConsoleError _ _ => true | _ => false end.

Definition is_warning (e : Effect) : bool :=
  match e with ConsoleWarn _ _ => true | _ => false end.

Definition is_dispatch (e : Effect) : bool :=
  match e with DispatchEvent _ => true | _ => false end.


(** ** The hook's arguments and React's state cell *)

(** [initialValue: T | (() => T)]: a literal or a zero-argument producer. *)
Inductive InitialValue (T : Type) : Type :=
| Literal (v : T)
| Producer (f : unit -> T).
Arguments Literal {T} v.
Arguments Producer {T} f.

(** [SetStateAction<T>]: a value or a function of the previous value; as any
    JavaScript function, the updater may throw. *)
Inductive SetStateAction (T : Type) : Type :=
| Direct (v : T)
| Updater (f : T -> Result T).
Arguments Direct {T} v.
Arguments Updater {T} f.

(** [UseLocalStorageOptions<T>]; every field may be left out. *)
Record UseLocalStorageOptions (T : Type) : Type := mkOptions {
  opt_serializer : option (T -> Result string);
  opt_deserializer : option (string -> Result T);
  opt_initializeWithValue : option bool
}.
Arguments mkOptions {T} _ _ _.
Arguments opt_serializer {T} _.
Arguments opt_deserializer {T} _.
Arguments opt_initializeWithValue {T} _.

(** [options = {}] *)
Definition default_options {T : Type} : UseLocalStorageOptions T :=
  mkOptions None None None.

(** The arguments of one call [useLocalStorage(key, initialValue, options)]. *)
Record Props (T : Type) : Type := mkProps {
  key : string;
  initialValue : InitialValue T;
  options : UseLocalStorageOptions T
}.
Arguments mkProps {T} _ _ _.
Arguments key {T} _.
Arguments initialValue {T} _.
Arguments options {T} _.

(** One mounted use of the hook: the arguments of its latest render, the
    [useState] cell, and whether the layout effects of [useEventCallback]
    have stored the callbacks in their refs. *)
Record Hook (T : Type) : Type := mkHook {
  props : Props T;
  storedValue : T;
  committed : bool
}.
Arguments mkHook {T} _ _ _.
Arguments props {T} _.
Arguments storedValue {T} _.
Arguments committed {T} _.

Record Window : Type := mkWindow {
  localStorage : Storage;
  win_listeners : list Listener
}.

(** [window] is [None] where [typeof window === 'undefined']. *)
Record World (T : Type) : Type := mkWorld {
  window : option Window;
  objects : gmap nat DomObject;
  hooks : gmap nat (Hook T);
  trace : list Effect
}.
Arguments mkWorld {T} _ _ _ _.
Arguments window {T} _.
Arguments objects {T} _.
Arguments hooks {T} _.
Arguments trace {T} _.

(** ** The state-and-exception monad of the embedding *)

Definition M (T A : Type) : Type := World T -> Result A * World T.

#[global] Instance M_ret {T} : MRet (M T) := fun A a w => (Ok a, w).

#[global] Instance M_bind {T} : MBind (M T) := fun A B f m w =>
  match m w with
  | (Ok a, w') => f a w'
  | (Throw e, w') => (Throw e, w')
  end.

Definition throw {T A} (e : JsError) : M T A := fun w => (Throw e, w).

(** [try { body } catch (error) { handler }]; the handler runs in the world
    the body left behind. *)
Definition try_catch {T A} (body : M T A) (handler : JsError -> M T A) : M T A :=
  fun w =>
    match body w with
    | (Ok a, w') => (Ok a, w')
    | (Throw e, w') => handler e w'
    end.

Definition lift {T A} (r : Result A) : M T A := fun w => (r, w).

Definition modify {T} (f : World T -> World T) : M T unit := fun w => (Ok tt, f w).

Definition gets {T A} (f : World T -> A) : M T A := fun w => (Ok (f w), w).

(** The world after one more observable effect. *)
Definition push {T} (e : Effect) (w : World T) : World T :=
  mkWorld (window w) (objects w) (hooks w) (e :: trace w).

Definition emit {T} (e : Effect) : M T unit := modify (push e).

Definition console_warn {T} (msg : string) (err : option JsError) : M T unit :=
  emit (ConsoleWarn msg err).

Definition console_error {T} (msg : string) (err : JsError) : M T unit :=
  emit (ConsoleError msg err).

(** Evaluating the global [window]. *)
Definition window_global {T} : M T Window := fun w =>
  match window w with
  | Some win => (Ok win, w)
  | None => (Throw (ReferenceError "window is not defined"), w)
  end.

Definition set_window {T} (win : Window) : M T unit :=
  modify (fun w => mkWorld (Some win) (objects w) (hooks w) (trace w)).

(** [const IS_SERVER = typeof window === 'undefined'] *)
Definition IS_SERVER {T} (w : World T) : bool :=
  match window w with Some _ => false | None => true end.

Definition is_server {T} : M T bool := gets IS_SERVER.

(** [window.localStorage.getItem(key)] *)
Definition localStorage_getItem {T} (k : string) : M T (option string) :=
  win ← window_global;
  emit (GetItem k);;
  mret (Storage_getItem k (localStorage win)).

(** The call [setItem(key, text)] on the storage of [win]. *)
Definition localStorage_setItem {T} (win : Window) (k v : string) : M T unit :=
  emit (SetItem k v);;
  st ← lift (Storage_setItem k v (localStorage win));
  set_window (mkWindow st (win_listeners win)).

(** [window.localStorage.removeItem(key)] *)
Definition localStorage_removeItem {T} (k : string) : M T unit :=
  win ← window_global;
  emit (RemoveItem k);;
  set_window (mkWindow (Storage_removeItem k (localStorage win)) (win_listeners win)).

(** React's [setStoredValue(v)] on the state cell of instance [id]; on an
    instance that is gone it does nothing. *)
Definition setStoredValue {T} (id : nat) (v : T) : M T unit :=
  modify (fun w =>
    mkWorld (window w) (objects w)
      (alter (fun h => mkHook (props h) v (committed h)) id (hooks w))
      (trace w)).

Definition warn_reading (k : string) : string :=
  "Error reading localStorage key “" +:+ k +:+ "”:".
Definition warn_setting (k : string) : string :=
  "Error setting localStorage key “" +:+ k +:+ "”:".
Definition warn_set_server (k : string) : string :=
  "Tried setting localStorage key “" +:+ k +:+
  "” even though environment is not a client".
Definition warn_remove_server (k : string) : string :=
  "Tried removing localStorage key “" +:+ k +:+
  "” even though environment is not a client".

(** ** [useLocalStorage] *)

(** The platform the hook runs on, over the type [T] of the run-time values
    it stores: the value [undefined] and the [JSON] object.
    [JSON.stringify] yields [None] where JavaScript yields [undefined]
    instead of a text, and throws on what it cannot serialize; [JSON.parse]
    throws a [SyntaxError] on malformed text. *)
Class Platform (T : Type) : Type := mkPlatform {
  undefined : T;
  JSON_stringify : T -> Result (option string);
  JSON_parse : string -> Result T
}.

Section UseLocalStorage.
Context {T : Type} `{!Platform T}.

Local Abbreviation Hk := (M T).

(** [initialValue instanceof Function ? initialValue() : initialValue] *)
Definition resolve (iv : InitialValue T) : T :=
  match iv with
  | Literal v => v
  | Producer f => f tt
  end.

(** Passing [text] where the platform expects a string: [undefined]
    becomes the text ["undefined"]. *)
Definition to_DOMString (text : option string) : string :=
  match text with
  | Some s => s
  | None => "undefined"
  end.

(** [serializer], lines 153-162. *)
Definition serializer (o : UseLocalStorageOptions T) (value : T)
  : Result (option string) :=
  match opt_serializer o with
  | Some f =>
      match f value with
      | Ok s => Ok (Some s)
      | Throw e => Throw e
      end
  | None => JSON_stringify value
  end.

(** [deserializer], lines 164-188. *)
Definition deserializer (p : Props T) (value : string) : Hk T :=
  match opt_deserializer (options p) with
  | Some f => lift (f value)
  | None =>
      if bool_decide (value = "undefined") then mret undefined
      else
        let defaultValue := resolve (initialValue p) in
        try_catch
          (lift (JSON_parse value))
          (fun error =>
             console_error "Error parsing JSON:" error;;
             mret defaultValue)
  end.

(** [readValue], lines 190-206. *)
Definition readValue (p : Props T) : Hk T :=
  let initialValueToUse := resolve (initialValue p) in
  server ← is_server;
  if (server : bool) then mret initialValueToUse
  else
    try_catch
      (raw ← localStorage_getItem (key p);
       (* [raw ? deserializer(raw) : initialValueToUse] *)
       match raw with
       | Some text =>
           if bool_decide (text = "") then mret initialValueToUse
           else deserializer p text
       | None => mret initialValueToUse
       end)
      (fun error =>
         console_warn (warn_reading (key p)) (Some error);;
         mret initialValueToUse).

(** The initializer given to [useState], lines 208-214. *)
Definition initial_state (p : Props T) : Hk T :=
  if default true (opt_initializeWithValue (options p)) then readValue p
  else mret (resolve (initialValue p)).

(** JavaScript truthiness of a [string | null]. *)
Definition truthy (text : option string) : bool :=
  match text with
  | Some s => negb (bool_decide (s = ""))
  | None => false
  end.

(** [handleStorageChange], lines 257-268. *)
Definition handleStorageChange (id : nat) (p : Props T) (event : Event) : Hk unit :=
  if truthy (ev_key event) && negb (bool_decide (ev_key event = Some (key p)))
  then mret tt
  else v ← readValue p; setStoredValue id v.

(** The listener [event => savedHandler.current(event)]: it calls the
    handler of the latest render of its instance. *)
Definition invoke (l : Listener) (event : Event) : Hk unit :=
  match l_handler l with
  | HandleStorageChange id =>
      fun w =>
        match hooks w !! id with
        | Some h => handleStorageChange id (props h) event w
        | None => (Ok tt, w)
        end
  | UserHandler _ => mret tt
  end.

(** The listeners of the event's type run in the order they were added; a
    fault in one is reported and does not reach the dispatcher. *)
Fixpoint run_listeners (ls : list Listener) (event : Event) : Hk unit :=
  match ls with
  | [] => mret tt
  | l :: ls' =>
      (if bool_decide (l_type l = ev_type event)
       then try_catch (invoke l event)
              (fun error => console_error "Uncaught" error)
       else mret tt);;
      run_listeners ls' event
  end.

(** [window.dispatchEvent(event)] *)
Definition window_dispatchEvent (event : Event) : Hk unit :=
  win ← window_global;
  emit (DispatchEvent event);;
  run_listeners (win_listeners win) event.

(** [useEventCallback], lines 112-126: until the layout effect has stored
    [fn] in the ref, the ref holds a function that throws. *)
Definition useEventCallback {A} (h : Hook T) (fn : Hk A) : Hk A :=
  if committed h then fn
  else throw (Error "Cannot call an event handler while rendering.").

(** [value instanceof Function ? value(readValue()) : value], line 224. *)
Definition newValue_of (p : Props T) (value : SetStateAction T) : Hk T :=
  match value with
  | Updater f => prev ← readValue p; lift (f prev)
  | Direct v => mret v
  end.

(** The body of [setValue], lines 216-234.  The member expression
    [window.localStorage.setItem] is evaluated before its arguments. *)
Definition setValue_body (id : nat) (p : Props T) (value : SetStateAction T)
  : Hk unit :=
  server ← is_server;
  (if (server : bool) then console_warn (warn_set_server (key p)) None
   else mret tt);;
  try_catch
    (newValue ← newValue_of p value;
     win ← window_global;
     text ← lift (serializer (options p) newValue);
     localStorage_setItem win (key p) (to_DOMString text);;
     setStoredValue id newValue;;
     window_dispatchEvent (mkEvent "local-storage" (Some (key p))))
    (fun error => console_warn (warn_setting (key p)) (Some error)).

(** The body of [removeValue], lines 236-251. *)
Definition removeValue_body (id : nat) (p : Props T) : Hk unit :=
  server ← is_server;
  (if (server : bool) then console_warn (warn_remove_server (key p)) None
   else mret tt);;
  let defaultValue := resolve (initialValue p) in
  localStorage_removeItem (key p);;
  setStoredValue id defaultValue;;
  window_dispatchEvent (mkEvent "local-storage" (Some (key p))).

(** Calling the [setValue] the instance [id] returned. *)
Definition setValue (id : nat) (value : SetStateAction T) : Hk unit := fun w =>
  match hooks w !! id with
  | Some h => useEventCallback h (setValue_body id (props h) value) w
  | None => (Throw (ReferenceError "setValue is not defined"), w)
  end.

(** Calling the [removeValue] the instance [id] returned. *)
Definition removeValue (id : nat) : Hk unit := fun w =>
  match hooks w !! id with
  | Some h => useEventCallback h (removeValue_body id (props h)) w
  | None => (Throw (ReferenceError "removeValue is not defined"), w)
  end.

(** *** [useEventListener], lines 50-93 *)

(** [targetElement && targetElement.addEventListener] *)
Definition can_listen (t : Target) (w : World T) : bool :=
  match t with
  | TWindow => true
  | TObject n =>
      match objects w !! n with
      | Some o => has_addEventListener o
      | None => false
      end
  end.

Definition listeners_of (t : Target) (w : World T) : list Listener :=
  match t with
  | TWindow => from_option win_listeners [] (window w)
  | TObject n => from_option obj_listeners [] (objects w !! n)
  end.

Definition set_listeners (t : Target) (ls : list Listener) (w : World T)
  : World T :=
  match t with
  | TWindow =>
      mkWorld ((fun win => mkWindow (localStorage win) ls) <$> window w)
        (objects w) (hooks w) (trace w)
  | TObject n =>
      mkWorld (window w)
        (alter (fun o => mkDomObject (has_addEventListener o) ls) n (objects w))
        (hooks w) (trace w)
  end.

(** [targetElement.addEventListener(eventName, listener, options)] *)
Definition addEventListener (t : Target) (l : Listener) : Hk unit :=
  emit (AddEventListener t l);;
  modify (fun w => set_listeners t (listeners_of t w ++ [l]) w).

Fixpoint remove_first (l : Listener) (ls : list Listener) : list Listener :=
  match ls with
  | [] => []
  | l' :: ls' => if decide (l' = l) then ls' else l' :: remove_first l ls'
  end.

(** [targetElement.removeEventListener(eventName, listener, options)] *)
Definition removeEventListener (t : Target) (l : Listener) : Hk unit :=
  emit (RemoveEventListener t l);;
  modify (fun w => set_listeners t (remove_first l (listeners_of t w)) w).

(** [element?.current ?? window], line 77: the global [window] is only
    evaluated when the ref is missing or holds nothing. *)
Definition targetElement_of (element : option RefObject) : Hk Target :=
  match element ≫= current with
  | Some n => mret (TObject n)
  | None => window_global ≫= fun _ => mret TWindow
  end.

(** The effect of lines 75-93.  It returns its cleanup, as the target and
    the listener to take off it, or [None] when it returned early. *)
Definition useEventListener_effect (eventName : string) (handler : Handler)
    (element : option RefObject) (listenerOptions : option bool)
  : Hk (option (Target * Listener)) :=
  targetElement ← targetElement_of element;
  ready ← gets (can_listen targetElement);
  if negb ready then mret None
  else
    let listener := mkListener eventName handler listenerOptions in
    addEventListener targetElement listener;;
    mret (Some (targetElement, listener)).

Definition run_cleanup (c : option (Target * Listener)) : Hk unit :=
  match c with
  | Some (t, l) => removeEventListener t l
  | None => mret tt
  end.

(** *** Mounting an instance *)

(** The first render of [useLocalStorage(key, initialValue, options)] as
    instance [id]: the state cell is created from [initial_state], and the
    current value is what the hook returns first. *)
Definition useLocalStorage_render (id : nat) (p : Props T) : Hk T :=
  s ← initial_state p;
  modify (fun w =>
    mkWorld (window w) (objects w) (<[id := mkHook p s false]> (hooks w))
      (trace w));;
  mret s.

(** The effects of that render: the layout effects store the callbacks,
    then line 253, then the two subscriptions of lines 270 and 272. *)
Definition useLocalStorage_effects (id : nat) : Hk unit := fun w =>
  match hooks w !! id with
  | None => (Ok tt, w)
  | Some h =>
      let p := props h in
      let w1 := mkWorld (window w) (objects w)
                  (<[id := mkHook p (storedValue h) true]> (hooks w))
                  (trace w) in
      (v ← readValue p;
       setStoredValue id v;;
       _ ← useEventListener_effect "storage" (HandleStorageChange id) None None;
       _ ← useEventListener_effect "local-storage" (HandleStorageChange id)
             None None;
       mret tt) w1
  end.

Definition mount (id : nat) (p : Props T) : Hk T :=
  s ← useLocalStorage_render id p;
  useLocalStorage_effects id;;
  mret s.

End UseLocalStorage.

(** ** A concrete platform: primitive values and their JSON texts

    The instance the scenarios are evaluated on.  Its values are the
    primitives: [undefined], [null], booleans, integer numbers, [NaN], big
    integers and strings of one-byte characters.  [stringify] and [parse]
    follow [JSON.stringify] and [JSON.parse] on them; texts of arrays, of
    objects and of numbers with a fraction or an exponent lie outside the
    values of this instance and are rejected by [parse].  A number [JNum n]
    stands for the double that holds the integer [n]: the instance is
    JavaScript's arithmetic and JavaScript's number texts on the integers of
    magnitude up to [2^53], which doubles hold exactly; what is stated of
    the code's numbers is stated within that range. *)

Module Json.
Local Open Scope nat_scope.

Inductive JsValue : Type :=
| JUndefined
| JNull
| JBool (b : bool)
| JNum (n : Z)
| JNaN
| JBigInt (n : Z)
| JStr (s : string).

#[global] Instance JsValue_eq_dec : EqDecision JsValue.
Proof. solve_decision. Defined.

Definition dquote : ascii := ascii_of_nat 34.
Definition backslash : ascii := ascii_of_nat 92.

Definition hex_digit (n : nat) : ascii :=
  if n <? 10 then ascii_of_nat (48 + n) else ascii_of_nat (87 + n).

(** One character of a string, as [JSON.stringify] writes it. *)
Definition escape_char (c : ascii) : string :=
  let n := nat_of_ascii c in
  if n =? 34 then String backslash (String dquote "")
  else if n =? 92 then String backslash (String backslash "")
  else if n =? 8 then String backslash "b"
  else if n =? 9 then String backslash "t"
  else if n =? 10 then String backslash "n"
  else if n =? 12 then String backslash "f"
  else if n =? 13 then String backslash "r"
  else if n <? 32 then
    String backslash "u00" +:+
    String (hex_digit (n / 16)) (String (hex_digit (n mod 16)) "")
  else String c "".

Fixpoint escape (s : string) : string :=
  match s with
  | EmptyString => ""
  | String c s' => escape_char c +:+ escape s'
  end.

Definition quote (s : string) : string :=
  String dquote (escape s +:+ String dquote "").

Fixpoint digits_of_pos_aux (fuel : nat) (n : N) (acc : string) : string :=
  match fuel with
  | O => acc
  | S fuel' =>
      let d := ascii_of_N (48 + n mod 10) in
      let q := (n / 10)%N in
      if (q =? 0)%N then String d acc
      else digits_of_pos_aux fuel' q (String d acc)
  end.

(** The decimal digits of a natural number, without leading zeros. *)
Definition digits (n : N) : string :=
  digits_of_pos_aux (S (N.to_nat (N.log2 n))) n "".

Definition number_text (z : Z) : string :=
  if (z <? 0)%Z then String "-" (digits (Z.to_N (- z)))
  else digits (Z.to_N z).

(** [JSON.stringify(value)] *)
Definition stringify (v : JsValue) : Result (option string) :=
  match v with
  | JUndefined => Ok None
  | JNull => Ok (Some "null")
  | JBool true => Ok (Some "true")
  | JBool false => Ok (Some "false")
  | JNum n => Ok (Some (number_text n))
  | JNaN => Ok (Some "null")
  | JBigInt _ => Throw (TypeError "Do not know how to serialize a BigInt")
  | JStr s => Ok (Some (quote s))
  end.

Definition is_ws (c : ascii) : bool :=
  let n := nat_of_ascii c in
  (n =? 32) || (n =? 9) || (n =? 10) || (n =? 13).

Fixpoint skip_ws (s : string) : string :=
  match s with
  | String c s' => if is_ws c then skip_ws s' else s
  | EmptyString => ""
  end.

Definition digit_value (c : ascii) : option N :=
  let n := N_of_ascii c in
  if ((48 <=? n) && (n <=? 57))%N then Some (n - 48)%N else None.

Definition hex_value (c : ascii) : option N :=
  let n := N_of_ascii c in
  if ((48 <=? n) && (n <=? 57))%N then Some (n - 48)%N
  else if ((97 <=? n) && (n <=? 102))%N then Some (n - 87)%N
  else if ((65 <=? n) && (n <=? 70))%N then Some (n - 55)%N
  else None.

(** The digits at the front of [s], read into [acc]. *)
Fixpoint read_digits (s : string) (acc : N) : N * string :=
  match s with
  | String c s' =>
      match digit_value c with
      | Some d => read_digits s' (10 * acc + d)%N
      | None => (acc, s)
      end
  | EmptyString => (acc, "")
  end.

(** [int] of the JSON grammar: [0], or a digit from 1 to 9 and more
    digits. *)
Definition read_int (s : string) : option (N * string) :=
  match s with
  | String c s' =>
      match digit_value c with
      | Some 0%N => Some (0%N, s')
      | Some d => Some (read_digits s' d)
      | None => None
      end
  | EmptyString => None
  end.

Definition starts_fraction_or_exponent (s : string) : bool :=
  match s with
  | String c _ =>
      let n := nat_of_ascii c in (n =? 46) || (n =? 101) || (n =? 69)
  | EmptyString => false
  end.

Definition read_number (s : string) : option (Z * string) :=
  let '(neg, body) :=
    match s with
    | String "-" s' => (true, s')
    | _ => (false, s)
    end in
  match read_int body with
  | Some (n, rest) =>
      if starts_fraction_or_exponent rest then None
      else Some (if (neg : bool) then (- Z.of_N n)%Z else Z.of_N n, rest)
  | None => None
  end.

Definition read_hex4 (s : string) : option (N * string) :=
  match s with
  | String a (String b (String c (String d rest))) =>
      match hex_value a, hex_value b, hex_value c, hex_value d with
      | Some x, Some y, Some z, Some u =>
          Some (((x * 16 + y) * 16 + z) * 16 + u, rest)%N
      | _, _, _, _ => None
      end
  | _ => None
  end.

(** The characters of a string literal after its opening quote, up to and
    including the closing quote. *)
Fixpoint read_chars (fuel : nat) (s : string) : option (string * string) :=
  match fuel with
  | O => None
  | S fuel' =>
      match s with
      | EmptyString => None
      | String c s' =>
          let n := nat_of_ascii c in
          if n =? 34 then Some ("", s')
          else if n <? 32 then None
          else if n =? 92 then
            match s' with
            | String e s'' =>
                let simple (ch : nat) :=
                  match read_chars fuel' s'' with
                  | Some (body, rest) => Some (String (ascii_of_nat ch) body, rest)
                  | None => None
                  end in
                let m := nat_of_ascii e in
                if m =? 34 then simple 34
                else if m =? 92 then simple 92
                else if m =? 47 then simple 47
                else if m =? 98 then simple 8
                else if m =? 102 then simple 12
                else if m =? 110 then simple 10
                else if m =? 114 then simple 13
                else if m =? 116 then simple 9
                else if m =? 117 then
                  match read_hex4 s'' with
                  | Some (code, s3) =>
                      if (code <? 128)%N then
                        match read_chars fuel' s3 with
                        | Some (body, rest) =>
                            Some (String (ascii_of_N code) body, rest)
                        | None => None
                        end
                      else None
                  | None => None
                  end
                else None
            | EmptyString => None
            end
          else
            match read_chars fuel' s' with
            | Some (body, rest) => Some (String c body, rest)
            | None => None
            end
      end
  end.

Definition read_value (s : string) : option (JsValue * string) :=
  match s with
  | String "n" (String "u" (String "l" (String "l" rest))) => Some (JNull, rest)
  | String "t" (String "r" (String "u" (String "e" rest))) =>
      Some (JBool true, rest)
  | String "f" (String "a" (String "l" (String "s" (String "e" rest)))) =>
      Some (JBool false, rest)
  | String c s' =>
      if nat_of_ascii c =? 34 then
        match read_chars (String.length s) s' with
        | Some (body, rest) => Some (JStr body, rest)
        | None => None
        end
      else
        match read_number s with
        | Some (z, rest) => Some (JNum z, rest)
        | None => None
        end
  | EmptyString => None
  end.

(** [JSON.parse(text)] *)
Definition parse (text : string) : Result JsValue :=
  match read_value (skip_ws text) with
  | Some (v, rest) =>
      match skip_ws rest with
      | EmptyString => Ok v
      | _ => Throw (SyntaxError "Unexpected non-whitespace character after JSON")
      end
  | None => Throw (SyntaxError "Unexpected token or end of JSON input")
  end.

(** The number an accumulator [a] becomes when the digits that
    [digits_of_pos_aux fuel n] writes are read after it. *)
Fixpoint shifted (fuel : nat) (n a : N) : N :=
  match fuel with
  | O => a
  | S fuel' =>
      if (n / 10 =? 0)%N then (10 * a + n mod 10)%N
      else (10 * shifted fuel' (n / 10) a + n mod 10)%N
  end.

(** The values that JSON has a text for: [null], booleans, numbers and
    strings. *)
Definition proper (v : JsValue) : Prop :=
  match v with
  | JNull | JBool _ | JNum _ | JStr _ => True
  | JUndefined | JNaN | JBigInt _ => False
  end.

#[global] Instance platform : Platform JsValue :=
  mkPlatform JsValue JUndefined stringify parse.

(** [prev + 1] on a primitive value. *)
Definition plus_one (prev : JsValue) : Result JsValue :=
  match prev with
  | JNum n => Ok (JNum (n + 1))
  | JNull => Ok (JNum 1)
  | JBool true => Ok (JNum 2)
  | JBool false => Ok (JNum 1)
  | JStr s => Ok (JStr (s +:+ "1"))
  | JUndefined | JNaN => Ok JNaN
  | JBigInt _ => Throw (TypeError "Cannot mix BigInt and other types")
  end.

End Json.

(** ** The router table, [src/app/router.tsx] *)

Module Router.
Local Open Scope nat_scope.
Local Open Scope list_scope.

(** The elements the table mentions; the pages themselves are other
    modules' code. *)
Inductive Element : Type :=
| AuthPage
| Navigate (to : string)
| Root
| CustomersPage
| CustomerPage.

#[global] Instance Element_eq_dec : EqDecision Element.
Proof. solve_decision. Defined.

(** A route object: [path] and [children] may be left out. *)
#[warnings="-register-all"] Inductive RouteObject : Type :=
| Route (path : option string) (element : Element) (children : list RouteObject).

(** The argument of [createBrowserRouter], lines 6-22. *)
Definition router : list RouteObject :=
  [ Route (Some "login") AuthPage [];
    Route (Some "/") (Navigate "/customers") [];
    Route None Root
      [ Route (Some "customers") CustomersPage [];
        Route (Some "/customers/:customerId") CustomerPage [] ] ].

(** *** The routing framework's matching

    What [createBrowserRouter] does with the table is the framework's
    code.  It is modelled here as the framework documents it: the table is
    flattened into branches (a full path and the chain of elements from
    the outermost layout to the leaf), a route without a path makes no
    branch of its own, branches are ranked by the score of their
    segments, and the first branch whose segments match the location's,
    letter case aside, is rendered.  A [Navigate] element that gets
    rendered moves the location to its target.

    A location is the pathname the framework matches against, slashes
    between plain segments: the query and the fragment have been split
    off and dot segments resolved before. *)

Definition slash : ascii := ascii_of_nat 47.

(** The non-empty pieces of [s] between slashes; [cur] is the piece being
    read, backwards. *)
Fixpoint segments_aux (s : string) (cur : string) : list string :=
  let flush := if bool_decide (cur = "") then [] else [String.rev cur] in
  match s with
  | EmptyString => flush
  | String c s' =>
      if bool_decide (c = slash) then flush ++ segments_aux s' ""
      else segments_aux s' (String c cur)
  end.

Definition segments (s : string) : list string := segments_aux s "".

Definition is_absolute (s : string) : bool :=
  match s with
  | String c _ => bool_decide (c = slash)
  | EmptyString => false
  end.

Definition is_dynamic (seg : string) : bool :=
  match seg with
  | String ":" (String _ _) => true
  | _ => false
  end.

Definition lower (c : ascii) : ascii :=
  let n := nat_of_ascii c in
  if (65 <=? n) && (n <=? 90) then ascii_of_nat (n + 32) else c.

Fixpoint lowercase (s : string) : string :=
  match s with
  | EmptyString => ""
  | String c s' => String (lower c) (lowercase s')
  end.

Record Branch : Type := mkBranch {
  b_path : list string;
  b_chain : list Element
}.

Fixpoint flattenRoute (parentPath : list string) (parents : list Element)
    (r : RouteObject) : list Branch :=
  match r with
  | Route path element children =>
      let own := from_option segments [] path in
      let full :=
        if from_option is_absolute false path then own
        else parentPath ++ own in
      let chain := parents ++ [element] in
      (fix flattenChildren (cs : list RouteObject) : list Branch :=
         match cs with
         | [] => []
         | c :: cs' => flattenRoute full chain c ++ flattenChildren cs'
         end) children
      ++ match path with
         | Some _ => [mkBranch full chain]
         | None => []
         end
  end.

Definition flattenRoutes (routes : list RouteObject) : list Branch :=
  flat_map (flattenRoute [] []) routes.

Definition computeScore (path : list string) : nat :=
  fold_left
    (fun score seg => score + (if is_dynamic seg then 3 else 10))
    path (length path).

(** Stable insertion into a list ranked by falling score. *)
Fixpoint insert_ranked (b : Branch) (bs : list Branch) : list Branch :=
  match bs with
  | [] => [b]
  | b' :: bs' =>
      if computeScore (b_path b') <? computeScore (b_path b)
      then b :: bs
      else b' :: insert_ranked b bs'
  end.

Definition rankRouteBranches (bs : list Branch) : list Branch :=
  fold_left (fun ranked b => insert_ranked b ranked) bs [].

Fixpoint matchSegments (pattern location : list string) : bool :=
  match pattern, location with
  | [], [] => true
  | p :: pattern', l :: location' =>
      (is_dynamic p || bool_decide (lowercase p = lowercase l))
      && matchSegments pattern' location'
  | _, _ => false
  end.

(** The chain of elements rendered for a location, if a branch matches. *)
Definition matchRoutes (routes : list RouteObject) (location : string)
  : option (list Element) :=
  b_chain <$>
    find (fun b => matchSegments (b_path b) (segments location))
      (rankRouteBranches (flattenRoutes routes)).

(** Where the browser ends up from [location] and what is rendered
    there, following at most [fuel] client-side redirects. *)
Fixpoint navigate (fuel : nat) (routes : list RouteObject) (location : string)
  : option (string * list Element) :=
  match matchRoutes routes location with
  | Some chain =>
      match last chain with
      | Some (Navigate to) =>
          match fuel with
          | S fuel' => navigate fuel' routes to
          | O => None
          end
      | _ => Some (location, chain)
      end
  | None => None
  end.

(** The page rendered after navigating to [location]. *)
Definition rendered (location : string) : option (list Element) :=
  snd <$> navigate (length (flattenRoutes router)) router location.

End Router.


(** ** Notions the statements below are written with *)

Section Notions.
Context {T : Type} `{!Platform T}.

(** The world after the effects [new] (newest first) were observed. *)
Definition log (new : list Effect) (w : World T) : World T :=
  mkWorld (window w) (objects w) (hooks w) (new ++ trace w).

(** The world after [setStoredValue(v)] on instance [id]. *)
Definition set_state (id : nat) (v : T) (w : World T) : World T :=
  mkWorld (window w) (objects w)
    (alter (fun h => mkHook (props h) v (committed h)) id (hooks w))
    (trace w).

(** The stored text of a key; [None] without a browser or without an
    entry. *)
Definition stored (k : string) (w : World T) : option string :=
  win ← window w; Storage_getItem k (localStorage win).

(** The in-memory value of an instance. *)
Definition state_of (id : nat) (w : World T) : option T :=
  storedValue <$> hooks w !! id.

(** What [deserializer] makes of a non-empty text [raw]: the value, and
    what it leaves on the console. *)
Definition deserialized (p : Props T) (raw : string) : T * list Effect :=
  match opt_deserializer (options p) with
  | Some f =>
      match f raw with
      | Ok v => (v, [])
      | Throw e =>
          (resolve (initialValue p),
           [ConsoleWarn (warn_reading (key p)) (Some e)])
      end
  | None =>
      if bool_decide (raw = "undefined") then (undefined, [])
      else
        match JSON_parse raw with
        | Ok v => (v, [])
        | Throw e =>
            (resolve (initialValue p), [ConsoleError "Error parsing JSON:" e])
        end
  end.

(** What [readValue] returns in [w], and the effects it has there. *)
Definition read_outcome (p : Props T) (w : World T) : T * list Effect :=
  match window w with
  | None => (resolve (initialValue p), [])
  | Some win =>
      match Storage_getItem (key p) (localStorage win) with
      | Some raw =>
          if bool_decide (raw = "") then
            (resolve (initialValue p), [GetItem (key p)])
          else
            let '(v, es) := deserialized p raw in
            (v, es ++ [GetItem (key p)])
      | None => (resolve (initialValue p), [GetItem (key p)])
      end
  end.

(** The guard of [handleStorageChange]: does a notification with this
    [key] property make an instance bound to [k] read again? *)
Definition concerns (event_key : option string) (k : string) : bool :=
  match event_key with
  | None => true
  | Some k' => bool_decide (k' = "") || bool_decide (k' = k)
  end.

(** The text the hook hands to a deserializer cannot be made sense of. *)
Definition malformed (p : Props T) (raw : string) : option JsError :=
  match opt_deserializer (options p) with
  | Some f =>
      match f raw with
      | Throw e => Some e
      | Ok _ => None
      end
  | None =>
      if bool_decide (raw = "undefined") then None
      else
        match JSON_parse raw with
        | Throw e => Some e
        | Ok _ => None
        end
  end.

(** The fault, if any, that line 226 raises for the new value [nv]:
    evaluating [window.localStorage.setItem] without a browser, the
    serializer, or the store write itself. *)
Definition write_fault (p : Props T) (nv : T) (w : World T) : option JsError :=
  match window w with
  | None => Some (ReferenceError "window is not defined")
  | Some win =>
      match serializer (options p) nv with
      | Throw e => Some e
      | Ok text =>
          match Storage_setItem (key p) (to_DOMString text) (localStorage win) with
          | Throw e => Some e
          | Ok _ => None
          end
      end
  end.

(** [v] has a JSON text that reads back as [v].  A JSON text is never
    empty and is never the bare word [undefined]. *)
Definition representable (v : T) : Prop :=
  exists s, JSON_stringify v = Ok (Some s) /\ s <> "" /\ s <> "undefined"
            /\ JSON_parse s = Ok v.

End Notions.

Section Frames.
Context {T : Type}.

(** The world after a successful [setItem]: the storage is replaced, the
    listeners stay. *)
Definition with_storage (st : Storage) (w : World T) : World T :=
  mkWorld ((fun win => mkWindow st (win_listeners win)) <$> window w)
    (objects w) (hooks w) (trace w).

(** From [w] to [w'] no instance appeared, disappeared, was re-rendered
    with other arguments or lost its callbacks: at most in-memory values
    changed. *)
Definition same_instances (w w' : World T) : Prop :=
  forall id,
    option_Forall2
      (fun h h' => props h' = props h /\ committed h' = committed h)
      (hooks w !! id) (hooks w' !! id).

End Frames.

(** ** The scenarios the statements are tried on *)

Module Scenario.
Import Json.

(** A browser with the given entries in its store, no quota, nothing
    mounted. *)
Definition browser (entries : list (string * string)) : World JsValue :=
  mkWorld (Some (mkWindow (mkStorage (list_to_map entries) None) []))
    ∅ ∅ [].

(** A browser whose store accepts no write at all. *)
Definition full_browser : World JsValue :=
  mkWorld (Some (mkWindow (mkStorage ∅ (Some 0)) [])) ∅ ∅ [].

(** No browser: [typeof window === 'undefined']. *)
Definition server : World JsValue := mkWorld None ∅ ∅ [].

(** [useLocalStorage("theme", "light")] *)
Definition theme : Props JsValue :=
  mkProps "theme" (Literal (JStr "light")) default_options.

(** [useLocalStorage("count", () => 0)] *)
Definition count : Props JsValue :=
  mkProps "count" (Producer (fun _ => JNum 0)) default_options.

(** The world after [p] was mounted as instance 0 in [w]. *)
Definition mounted (p : Props JsValue) (w : World JsValue) : World JsValue :=
  (mount 0 p w).2.

(** The world after the computation [m] ran in [w]. *)
Definition after {A} (m : M JsValue A) (w : World JsValue) : World JsValue :=
  (m w).2.

(** The listeners a mounted instance 0 leaves on the window. *)
Definition subscriptions : list Listener :=
  [ mkListener "storage" (HandleStorageChange 0) None;
    mkListener "local-storage" (HandleStorageChange 0) None ].

(** [setValue(prev => prev + 1)] *)
Definition increment : SetStateAction JsValue := Updater plus_one.

(** The store has changed under a mounted instance 0 that has not been
    told yet: another document wrote [text] under [k]. *)
Definition written_elsewhere (k text : string) (w : World JsValue)
  : World JsValue :=
  match window w with
  | Some win =>
      with_storage
        (mkStorage (<[k := text]> (items (localStorage win)))
           (quota (localStorage win))) w
  | None => w
  end.

End Scenario.

(** ** Later renders, and what it is to be subscribed *)

#[global] Instance Target_eq_dec : EqDecision Target.
Proof. solve_decision. Defined.

Section Lifecycle.
Context {T : Type} `{!Platform T}.

Local Abbreviation Hk := (M T).

(** A later render of instance [id]: [useState] keeps its cell and does
    not run its initializer again, so the hook returns the value held in
    memory, whatever the arguments now are. *)
Definition useLocalStorage_rerender (id : nat) (p' : Props T) : Hk T :=
  fun w =>
    match hooks w !! id with
    | Some h => (Ok (storedValue h), w)
    | None => useLocalStorage_render id p' w
    end.

(** The effects of a later render with the arguments [p']: the layout
    effects store the new callbacks and the new handler in their refs; the
    effect of line 253 runs again only when [key] has changed; the two
    subscriptions, whose dependencies have not changed, stay. *)
Definition useLocalStorage_rerender_effects (id : nat) (p' : Props T)
  : Hk unit :=
  fun w =>
    match hooks w !! id with
    | None => (Ok tt, w)
    | Some h =>
        let w1 := mkWorld (window w) (objects w)
                    (<[id := mkHook p' (storedValue h) true]> (hooks w))
                    (trace w) in
        (if bool_decide (key p' = key (props h)) then mret tt
         else v ← readValue p'; setStoredValue id v) w1
    end.

Definition rerender (id : nat) (p' : Props T) : Hk T :=
  s ← useLocalStorage_rerender id p';
  useLocalStorage_rerender_effects id p';;
  mret s.

(** Instance [id] listens on the window for events of type [type]. *)
Definition subscribed (id : nat) (type : string) (w : World T) : Prop :=
  exists o, mkListener type (HandleStorageChange id) o ∈ listeners_of TWindow w.

(** The entries of the store other than the one under [k]. *)
Definition other_entries (k : string) (w : World T)
  : option (gmap string string) :=
  (fun win => delete k (items (localStorage win))) <$> window w.

(** The frame of a dispatch: the browser, so the store too, the objects
    and the arguments of every instance stay. *)
Definition dispatch_frame (w0 w : World T) : Prop :=
  window w = window w0 /\ objects w = objects w0 /\ same_instances w0 w.

(** Calls that write to the store or broadcast. *)
Definition is_write (e : Effect) : bool :=
  match e with
  | SetItem _ _ | RemoveItem _ | DispatchEvent _ => true
  | _ => false
  end.

(** The bound of the store, where there is a browser. *)
Definition quota_of (w : World T) : option (option nat) :=
  (fun win => quota (localStorage win)) <$> window w.

End Lifecycle.

(** ** More scenarios *)

Module Scenes.
Import Json Scenario.

(** Two instances, 0 and 1, of [useLocalStorage("theme", "light")]
    mounted in one document over an empty store. *)
Definition two_themes : World JsValue :=
  after (mount 1 theme) (mounted theme (browser [])).

(** The listeners instance 1 leaves on the window. *)
Definition subscriptions1 : list Listener :=
  [ mkListener "storage" (HandleStorageChange 1) None;
    mkListener "local-storage" (HandleStorageChange 1) None ].

(** Instance 0 on ["theme"] and instance 1 on ["count"], in one
    document. *)
Definition theme_and_count : World JsValue :=
  after (mount 1 count) (mounted theme (browser [])).

(** An updater that throws. *)
Definition failing : SetStateAction JsValue :=
  Updater (fun _ => Throw (Error "no next value")).

(** Raw text as the codec: strings are stored as they are. *)
Definition raw_serializer (v : JsValue) : Result string :=
  match v with
  | JStr s => Ok s
  | _ => Throw (TypeError "not a string")
  end.

Definition raw_deserializer (s : string) : Result JsValue := Ok (JStr s).

Definition raw_options : UseLocalStorageOptions JsValue :=
  mkOptions (Some raw_serializer) (Some raw_deserializer) None.

(** [useLocalStorage("name", "nobody", { serializer, deserializer })] *)
Definition name : Props JsValue :=
  mkProps "name" (Literal (JStr "nobody")) raw_options.

(** A document with one element, object 5, that can listen, and one
    media query list, object 6, that cannot. *)
Definition page : World JsValue :=
  mkWorld (Some (mkWindow (mkStorage ∅ None) []))
    {[ 5 := mkDomObject true []; 6 := mkDomObject false [] ]} ∅ [].

(** The same objects where there is no window. *)
Definition windowless_page : World JsValue :=
  mkWorld None {[ 5 := mkDomObject true []; 6 := mkDomObject false [] ]} ∅ [].

(** The world after [n] calls [setValue(prev => prev + 1)] of the mounted
    counter. *)
Definition incremented (n : nat) : World JsValue :=
  Nat.iter n (after (setValue 0 increment)) (mounted count (browser [])).

End Scenes.

(** ** Notions for the routes *)

Module Routes.
Import Router.

(** No slash in [s]: [s] is one segment of a path. *)
Fixpoint slash_free (s : string) : bool :=
  match s with
  | EmptyString => true
  | String c s' => negb (bool_decide (c = slash)) && slash_free s'
  end.

(** A letter, a digit, a hyphen or an underscore. *)
Definition plain_char (c : ascii) : bool :=
  let n := nat_of_ascii c in
  ((48 <=? n) && (n <=? 57) || (65 <=? n) && (n <=? 90)
   || (97 <=? n) && (n <=? 122) || (n =? 45) || (n =? 95))%nat.

(** [s] is made of such characters only, as the ids of the customers
    are: nothing in it that a URL gives a meaning to. *)
Fixpoint plain (s : string) : bool :=
  match s with
  | EmptyString => true
  | String c s' => plain_char c && plain s'
  end.

(** What the application shows: the auth page, the customers list in the
    layout, the customer detail in the layout. *)
Definition pages : list (list Element) :=
  [ [AuthPage]; [Root; CustomersPage]; [Root; CustomerPage] ].

End Routes.

(** * Properties *)

(** The monad's operations are plain functions on worlds; [mrun] exposes
    them so that a computation can be evaluated step by step. *)
Ltac mrun :=
  unfold mbind, M_bind, mret, M_ret, lift, throw, try_catch, emit, modify,
    console_warn, console_error, is_server, gets, IS_SERVER, window_global,
    set_window in *;
  simpl in *.

Section ReadPath.
Context {T : Type} `{!Platform T}.
Implicit Types (w : World T) (p : Props T).

Lemma log_nil w : log [] w = w.
Proof. by destruct w. Qed.

Lemma log_app new1 new2 w : log new1 (log new2 w) = log (new1 ++ new2) w.
Proof. unfold log. simpl. by rewrite app_assoc. Qed.

Lemma push_log e w : push e w = log [e] w.
Proof. done. Qed.

(** [deserializer] never mutates anything but the console, and the [try]
    around it in [readValue] absorbs its faults. *)
Lemma deserializer_caught p raw w :
  try_catch (deserializer p raw)
    (fun error =>
       console_warn (warn_reading (key p)) (Some error);;
       mret (resolve (initialValue p))) w
  = (Ok (deserialized p raw).1, log (deserialized p raw).2 w).
Proof.
  unfold deserializer, deserialized.
  destruct (opt_deserializer (options p)) as [f|]; mrun.
  - destruct (f raw); simpl; by rewrite ?log_nil.
  - case_bool_decide; mrun; [by rewrite log_nil|].
    destruct (JSON_parse raw); simpl; by rewrite ?log_nil.
Qed.

(** [readValue] always returns: its value and its effects are those of
    [read_outcome]. *)
Lemma readValue_outcome p w :
  readValue p w = (Ok (read_outcome p w).1, log (read_outcome p w).2 w).
Proof.
  unfold readValue, read_outcome, localStorage_getItem. mrun.
  destruct (window w) as [win|] eqn:Hw; simpl; [|by rewrite log_nil].
  rewrite Hw. simpl.
  destruct (Storage_getItem (key p) (localStorage win)) as [raw|]; simpl; [|done].
  case_bool_decide; simpl; [done|].
  pose proof (deserializer_caught p raw (push (GetItem (key p)) w)) as Hd.
  mrun. rewrite Hd.
  destruct (deserialized p raw) as [v es]. simpl.
  by rewrite push_log, log_app.
Qed.

Lemma newValue_of_direct p v w : newValue_of p (Direct v) w = (Ok v, w).
Proof. done. Qed.

Lemma newValue_of_updater p f w :
  newValue_of p (Updater f) w
  = (f (read_outcome p w).1, log (read_outcome p w).2 w).
Proof. unfold newValue_of. mrun. by rewrite readValue_outcome. Qed.

(** Computing the new value touches nothing but the trace. *)
Lemma newValue_of_frame p value w r w1 :
  newValue_of p value w = (r, w1) ->
  exists new, w1 = log new w /\ Forall (fun e => is_dispatch e = false) new.
Proof.
  destruct value as [v|f].
  - rewrite newValue_of_direct. intros [= <- <-]. exists []. by rewrite log_nil.
  - rewrite newValue_of_updater. intros [= <- <-]. eexists; split; [done|].
    unfold read_outcome. destruct (window w) as [win|]; [|done].
    destruct (Storage_getItem _ _) as [raw|]; [|by repeat constructor].
    case_bool_decide; [by repeat constructor|].
    unfold deserialized.
    destruct (opt_deserializer _) as [g|].
    + destruct (g raw); by repeat constructor.
    + case_bool_decide; [by repeat constructor|].
      destruct (JSON_parse raw); by repeat constructor.
Qed.

(** The guard of [handleStorageChange] lets through exactly the
    notifications that [concerns] describes. *)
Lemma handleStorageChange_outcome id p ev w :
  handleStorageChange id p ev w =
    (Ok tt,
     if concerns (ev_key ev) (key p)
     then set_state id (read_outcome p w).1 (log (read_outcome p w).2 w)
     else w).
Proof.
  unfold handleStorageChange, concerns, truthy.
  destruct (ev_key ev) as [k'|]; simpl.
  - destruct (decide (k' = "")) as [->|Hne].
    + simpl. mrun. by rewrite readValue_outcome.
    + rewrite (bool_decide_eq_false_2 (k' = "")) by done. simpl.
      destruct (decide (k' = key p)) as [->|Hk].
      * rewrite !bool_decide_eq_true_2 by done. simpl. mrun.
        by rewrite readValue_outcome.
      * rewrite (bool_decide_eq_false_2 (Some k' = Some (key p))) by congruence.
        rewrite (bool_decide_eq_false_2 (k' = key p)) by done. done.
  - mrun. by rewrite readValue_outcome.
Qed.

(** Listeners only ever log and refresh in-memory values: whatever
    property of the world survives those two steps survives a dispatch. *)
Lemma run_listeners_inv (P : World T -> Prop) ls ev :
  (forall w id h,
      P w -> hooks w !! id = Some h ->
      P (set_state id (read_outcome (props h) w).1
           (log (read_outcome (props h) w).2 w))) ->
  forall w, P w -> exists w', run_listeners ls ev w = (Ok tt, w') /\ P w'.
Proof.
  intros Hstep. induction ls as [|l ls IH]; intros w HP; simpl.
  - by exists w.
  - mrun. case_bool_decide; simpl; [|by apply IH].
    unfold invoke. destruct (l_handler l) as [id|n]; simpl; [|by apply IH].
    destruct (hooks w !! id) as [h|] eqn:Hh; simpl; [|by apply IH].
    rewrite handleStorageChange_outcome. simpl.
    destruct (concerns _ _); apply IH; eauto.
Qed.

End ReadPath.

Section WritePath.
Context {T : Type} `{!Platform T}.
Implicit Types (w : World T) (p : Props T).

Lemma same_instances_refl w : same_instances w w.
Proof. intros id. destruct (hooks w !! id); by constructor. Qed.

Lemma same_instances_trans w1 w2 w3 :
  same_instances w1 w2 -> same_instances w2 w3 -> same_instances w1 w3.
Proof.
  intros H12 H23 id. specialize (H12 id). specialize (H23 id).
  destruct H12 as [h1 h2 [? ?]|]; inversion H23 as [? h3 [? ?]|]; subst;
    constructor; split; congruence.
Qed.

Lemma same_instances_log new w : same_instances w (log new w).
Proof. intros id. simpl. destruct (hooks w !! id); by constructor. Qed.

Lemma same_instances_set_state id v w : same_instances w (set_state id v w).
Proof.
  intros id'. unfold set_state. simpl.
  destruct (decide (id = id')) as [<-|Hne].
  - rewrite lookup_alter_eq. destruct (hooks w !! id); by constructor.
  - rewrite lookup_alter_ne by done. destruct (hooks w !! id'); by constructor.
Qed.

Lemma same_instances_lookup w w' id h :
  same_instances w w' -> hooks w !! id = Some h ->
  exists h', hooks w' !! id = Some h' /\ props h' = props h
             /\ committed h' = committed h.
Proof.
  intros Hs Hh. specialize (Hs id). rewrite Hh in Hs.
  inversion Hs as [? h' [? ?]|]; subst. by exists h'.
Qed.

(** A dispatch returns, keeps the browser and the instances, and
    broadcasts nothing itself. *)
Lemma run_listeners_frame ls ev w :
  exists w', run_listeners ls ev w = (Ok tt, w')
    /\ window w' = window w /\ objects w' = objects w
    /\ same_instances w w'.
Proof.
  destruct (run_listeners_inv
              (fun w' => window w' = window w /\ objects w' = objects w
                         /\ same_instances w w') ls ev) with (w := w)
    as (w' & Hrun & HP).
  - intros w1 id h (Hwin & Hobj & Hs) _. repeat split; [done..|].
    eapply same_instances_trans; [exact Hs|].
    eapply same_instances_trans; [apply same_instances_log|].
    apply same_instances_set_state.
  - repeat split; [done..|]. apply same_instances_refl.
  - by exists w'.
Qed.

Lemma setValue_committed id h value w :
  hooks w !! id = Some h -> committed h = true ->
  setValue id value w = setValue_body id (props h) value w.
Proof. intros Hh Hc. unfold setValue, useEventCallback. by rewrite Hh, Hc. Qed.

Lemma removeValue_committed id h w :
  hooks w !! id = Some h -> committed h = true ->
  removeValue id w = removeValue_body id (props h) w.
Proof. intros Hh Hc. unfold removeValue, useEventCallback. by rewrite Hh, Hc. Qed.

(** The write path in a browser when nothing faults: the text is stored,
    the in-memory value is set, and the notification is dispatched. *)
Lemma setValue_body_written id p value w win nv w1 text st' :
  window w = Some win ->
  newValue_of p value w = (Ok nv, w1) ->
  serializer (options p) nv = Ok text ->
  Storage_setItem (key p) (to_DOMString text) (localStorage win) = Ok st' ->
  setValue_body id p value w =
    run_listeners (win_listeners win)
      (mkEvent "local-storage" (Some (key p)))
      (push (DispatchEvent (mkEvent "local-storage" (Some (key p))))
         (set_state id nv
            (with_storage st'
               (push (SetItem (key p) (to_DOMString text)) w1)))).
Proof.
  intros Hw Hnv Hser Hset.
  destruct (newValue_of_frame _ _ _ _ _ Hnv) as (new & -> & _).
  unfold setValue_body, localStorage_setItem, window_dispatchEvent,
    setStoredValue. mrun.
  rewrite Hw. simpl. rewrite Hnv. simpl. rewrite Hw. simpl.
  rewrite Hser. simpl. rewrite Hset. simpl.
  unfold with_storage, set_state, push. simpl. rewrite Hw. simpl.
  match goal with
  | |- context [run_listeners ?ls ?ev ?w0] =>
      destruct (run_listeners_frame ls ev w0) as (w' & -> & _)
  end.
  done.
Qed.

End WritePath.

Section RoundTrip.
Context {T : Type} `{!Platform T}.
Implicit Types (w : World T) (p : Props T).

(** What a fresh read returns when the store holds a JSON text of [v]. *)
Lemma read_outcome_text k init' s v w win :
  window w = Some win ->
  Storage_getItem k (localStorage win) = Some s ->
  s <> "" -> s <> "undefined" -> JSON_parse s = Ok v ->
  read_outcome (mkProps k init' default_options) w = (v, [GetItem k]).
Proof.
  intros Hw Hs Hne Hnu Hp. unfold read_outcome, deserialized. simpl.
  rewrite Hw, Hs. rewrite !bool_decide_eq_false_2 by done. by rewrite Hp.
Qed.

(** C1, as amended.  In a browser whose store accepts the write, for an
    instance with the default serializer: after [setValue(v)] with a value
    [v] that has a
    JSON text reading back as [v], a fresh instance bound to the same key
    with default options returns [v] from its first render, and holds [v]
    in memory. *)
Theorem setValue_then_fresh_read_roundtrip w win id h v :
  window w = Some win ->
  hooks w !! id = Some h ->
  committed h = true ->
  opt_serializer (options (props h)) = None ->
  representable v ->
  (forall s, JSON_stringify v = Ok (Some s) ->
     fits (quota (localStorage win))
       (<[key (props h) := s]> (items (localStorage win))) = true) ->
  exists w1,
    setValue id (Direct v) w = (Ok tt, w1) /\
    forall id' init',
      exists w2,
        useLocalStorage_render id'
          (mkProps (key (props h)) init' default_options) w1 = (Ok v, w2)
        /\ state_of id' w2 = Some v.
Proof.
  intros Hw Hh Hc Hser (s & Hs & Hne & Hnu & Hparse) Hfits.
  rewrite (setValue_committed _ _ _ _ Hh Hc).
  erewrite setValue_body_written; cycle 1.
  - exact Hw.
  - apply newValue_of_direct.
  - unfold serializer. rewrite Hser. exact Hs.
  - unfold Storage_setItem. simpl. by rewrite (Hfits s Hs).
  - match goal with
    | |- context [run_listeners ?ls ?ev ?w0] =>
        destruct (run_listeners_frame ls ev w0) as (w1 & Hrun & Hwin & _)
    end.
    exists w1. split; [exact Hrun|]. intros id' init'.
    simpl in Hwin. rewrite Hw in Hwin. simpl in Hwin.
    unfold useLocalStorage_render, initial_state. simpl. mrun.
    rewrite readValue_outcome.
    erewrite read_outcome_text; [| exact Hwin | | done..].
    + simpl. eexists; split; [done|].
      unfold state_of. simpl. by rewrite lookup_insert_eq.
    + unfold Storage_getItem. simpl. by rewrite lookup_insert_eq.
Qed.

End RoundTrip.

Import Json Scenario.

(** ** The concrete platform writes JSON texts and reads them back *)

Section JsonTexts.
Local Open Scope N_scope.

Lemma digit_value_digit d :
  d < 10 -> digit_value (ascii_of_N (48 + d)) = Some d.
Proof.
  intros Hd. unfold digit_value. rewrite N_ascii_embedding by lia.
  assert (H1 : (48 <=? 48 + d) = true) by (apply N.leb_le; lia).
  assert (H2 : (48 + d <=? 57) = true) by (apply N.leb_le; lia).
  rewrite H1, H2. simpl. f_equal. lia.
Qed.

Lemma read_digits_written fuel : forall n acc a,
  read_digits (digits_of_pos_aux fuel n acc) a
  = read_digits acc (shifted fuel n a).
Proof.
  induction fuel as [|fuel IH]; intros n acc a; simpl; [done|].
  assert (Hd : n mod 10 < 10) by (apply N.mod_lt; lia).
  destruct (n / 10 =? 0) eqn:Hq.
  - simpl. by rewrite digit_value_digit.
  - rewrite IH. simpl. by rewrite digit_value_digit.
Qed.

Lemma shifted_zero fuel : forall n, n < 2 ^ N.of_nat fuel -> shifted fuel n 0 = n.
Proof.
  induction fuel as [|fuel IH]; intros n Hn.
  - simpl in *. lia.
  - cbn [shifted]. pose proof (N.div_mod n 10 ltac:(lia)) as Hdm.
    destruct (n / 10 =? 0) eqn:Hq.
    + apply N.eqb_eq in Hq. lia.
    + rewrite IH; [lia|].
      rewrite Nat2N.inj_succ, N.pow_succ_r' in Hn.
      apply N.Div0.div_lt_upper_bound; lia.
Qed.

Lemma digits_first fuel : forall n acc,
  0 < n -> n < 2 ^ N.of_nat fuel ->
  exists d rest,
    digits_of_pos_aux fuel n acc = String (ascii_of_N (48 + d)) rest
    /\ 0 < d < 10.
Proof.
  induction fuel as [|fuel IH]; intros n acc Hpos Hn.
  - simpl in *. lia.
  - cbn [digits_of_pos_aux]. pose proof (N.div_mod n 10 ltac:(lia)) as Hdm.
    assert (Hd : n mod 10 < 10) by (apply N.mod_lt; lia).
    destruct (n / 10 =? 0) eqn:Hq.
    + apply N.eqb_eq in Hq. exists (n mod 10), acc. split; [done|lia].
    + apply N.eqb_neq in Hq. apply IH; [lia|].
      rewrite Nat2N.inj_succ, N.pow_succ_r' in Hn.
      apply N.Div0.div_lt_upper_bound; lia.
Qed.

Lemma fuel_enough n : n < 2 ^ N.of_nat (S (N.to_nat (N.log2 n))).
Proof.
  rewrite Nat2N.inj_succ, N2Nat.id.
  destruct (N.eq_dec n 0) as [->|Hn]; [done|].
  apply N.log2_spec. lia.
Qed.

Lemma read_int_digits n : read_int (digits n) = Some (n, "").
Proof.
  unfold digits. destruct (N.eq_dec n 0) as [->|Hn]; [done|].
  destruct (digits_first (S (N.to_nat (N.log2 n))) n "")
    as (d & rest & Heq & Hd); [lia|apply fuel_enough|].
  pose proof (read_digits_written (S (N.to_nat (N.log2 n))) n "" 0) as Hread.
  rewrite shifted_zero in Hread by apply fuel_enough.
  rewrite Heq in *. unfold read_int. cbn [read_digits] in Hread.
  rewrite digit_value_digit in * by lia.
  replace (10 * 0 + d) with d in Hread by lia.
  rewrite Hread. destruct d; [lia|done].
Qed.

(** The text of a number starts with a digit, or with the sign and a
    digit. *)
Lemma digits_head n :
  exists d rest, digits n = String (ascii_of_N (48 + d)) rest /\ d < 10.
Proof.
  destruct (N.eq_dec n 0) as [->|Hn]; [by exists 0, ""|].
  destruct (digits_first (S (N.to_nat (N.log2 n))) n "")
    as (d & rest & Heq & Hd); [lia|apply fuel_enough|].
  exists d, rest. split; [done|lia].
Qed.

Local Close Scope N_scope.

(** A character that is a decimal digit is none of the characters the
    other readers look for. *)
Lemma digit_cases d :
  (d < 10)%N ->
  d = 0%N \/ d = 1%N \/ d = 2%N \/ d = 3%N \/ d = 4%N \/ d = 5%N
  \/ d = 6%N \/ d = 7%N \/ d = 8%N \/ d = 9%N.
Proof. lia. Qed.

Lemma parse_digits n : parse (digits n) = Ok (JNum (Z.of_N n)).
Proof.
  pose proof (read_int_digits n) as Hint.
  destruct (digits_head n) as (d & rest & Heq & Hd).
  unfold parse. rewrite Heq in *.
  assert (Hval : read_value (String (ascii_of_N (48 + d)) rest)
                 = Some (JNum (Z.of_N n), "")).
  { destruct (digit_cases d Hd) as [->|[->|[->|[->|[->|[->|[->|[->|[->| ->]]]]]]]]];
      match goal with
      | |- context [ascii_of_N ?m] =>
          let c := eval vm_compute in (ascii_of_N m) in
          change (ascii_of_N m) with c in *
      end;
      cbn -[read_int]; unfold read_number; cbn -[read_int];
      by rewrite Hint. }
  assert (Hws : skip_ws (String (ascii_of_N (48 + d)) rest)
                = String (ascii_of_N (48 + d)) rest).
  { by destruct (digit_cases d Hd) as [->|[->|[->|[->|[->|[->|[->|[->|[->| ->]]]]]]]]]. }
  by rewrite Hws, Hval.
Qed.

Lemma parse_negative n :
  parse (String "-" (digits n)) = Ok (JNum (- Z.of_N n)).
Proof.
  unfold parse, read_value, read_number.
  lazy -[read_int digits Z.of_N Z.opp]. rewrite read_int_digits.
  lazy -[Z.of_N Z.opp]. done.
Qed.

Lemma parse_number_text z : parse (number_text z) = Ok (JNum z).
Proof.
  unfold number_text. destruct (z <? 0)%Z eqn:Hz.
  - apply Z.ltb_lt in Hz. rewrite parse_negative. do 2 f_equal. lia.
  - apply Z.ltb_ge in Hz. rewrite parse_digits. do 2 f_equal. lia.
Qed.

(** Reading back one written character. *)
Lemma read_chars_escape_char c tail fuel :
  read_chars (S fuel) (escape_char c +:+ tail)
  = match read_chars fuel tail with
    | Some (body, rest) => Some (String c body, rest)
    | None => None
    end.
Proof. destruct c as [[] [] [] [] [] [] [] []]; reflexivity. Qed.

Lemma append_assoc (a b c : string) : (a +:+ b) +:+ c = a +:+ (b +:+ c).
Proof.
  induction a as [|x a IH]; [done|].
  change (String x ((a +:+ b) +:+ c) = String x (a +:+ b +:+ c)).
  by f_equal.
Qed.

Lemma read_chars_escape s : forall fuel rest,
  String.length s < fuel ->
  read_chars fuel (escape s +:+ String dquote rest) = Some (s, rest).
Proof.
  induction s as [|c s IH]; intros fuel rest Hfuel.
  - destruct fuel; [simpl in Hfuel; lia|done].
  - destruct fuel as [|fuel]; [simpl in Hfuel; lia|].
    cbn [escape]. rewrite append_assoc, read_chars_escape_char.
    rewrite IH; [done|simpl in Hfuel; lia].
Qed.

Lemma escape_char_length c : 1 <= String.length (escape_char c).
Proof. destruct c as [[] [] [] [] [] [] [] []]; vm_compute; lia. Qed.

Lemma append_length (a b : string) :
  String.length (a +:+ b) = String.length a + String.length b.
Proof.
  induction a as [|x a IH]; [done|].
  change (S (String.length (a +:+ b)) = S (String.length a + String.length b)).
  by f_equal.
Qed.

Lemma escape_length s : String.length s <= String.length (escape s).
Proof.
  induction s as [|c s IH]; [done|]. cbn [escape].
  rewrite append_length. pose proof (escape_char_length c). simpl. lia.
Qed.

Lemma parse_quote s : parse (quote s) = Ok (JStr s).
Proof.
  unfold parse, quote.
  change (skip_ws (String dquote ?t)) with (String dquote t).
  unfold read_value.
  change (String dquote ?t) with (String (ascii_of_nat 34) t).
  cbn [ascii_of_nat ascii_of_pos Pos.of_nat Pos.succ shift].
  rewrite read_chars_escape; [done|].
  cbn [String.length]. rewrite append_length. pose proof (escape_length s).
  simpl. lia.
Qed.

(** What [stringify] writes is never the empty text and never the bare
    word [undefined]. *)
Lemma stringify_is_json_text v s :
  stringify v = Ok (Some s) -> s <> "" /\ s <> "undefined".
Proof.
  destruct v as [| |[]|z| | |str]; intros [= <-]; try done.
  - unfold number_text. destruct (z <? 0)%Z; [done|].
    destruct (digits_head (Z.to_N z)) as (d & rest & -> & Hd).
    split; [done|]. intros [= Hc _].
    by destruct (digit_cases d Hd) as [->|[->|[->|[->|[->|[->|[->|[->|[->| ->]]]]]]]]].
Qed.

(** Every proper value has a text that reads back as it. *)
Lemma proper_representable v : proper v -> representable v.
Proof.
  intros Hv.
  assert (Htext : forall s, stringify v = Ok (Some s) ->
                            parse s = Ok v -> representable v).
  { intros s Hs Hp. exists s.
    destruct (stringify_is_json_text v s Hs) as [? ?]. by repeat split. }
  destruct v as [| |b|z| | |str]; try done.
  - by apply (Htext "null").
  - destruct b; [by apply (Htext "true")|by apply (Htext "false")].
  - apply (Htext (number_text z)); [done|apply parse_number_text].
  - apply (Htext (quote str)); [done|apply parse_quote].
Qed.

End JsonTexts.

Lemma setValue_then_fresh_read_roundtrip_witness :
  exists w1,
    setValue 0 (Direct (JStr "dark")) (mounted theme (browser [])) = (Ok tt, w1) /\
    forall id' init',
      exists w2,
        useLocalStorage_render id' (mkProps "theme" init' default_options) w1
        = (Ok (JStr "dark"), w2)
        /\ state_of id' w2 = Some (JStr "dark").
Proof.
  apply (setValue_then_fresh_read_roundtrip
           (mounted theme (browser []))
           (mkWindow (mkStorage ∅ None) subscriptions)
           0 (mkHook theme (JStr "light") true) (JStr "dark")).
  - vm_compute. reflexivity.
  - vm_compute. reflexivity.
  - reflexivity.
  - reflexivity.
  - exists (quote "dark"). repeat split; try (vm_compute; congruence).
  - intros s _. reflexivity.
Defined.

(** C1 as stated fails.  The value ["dark"] has a JSON text that reads back
    as itself, and the instance uses the default serializer; but over a
    store that has no room for the entry [setValue("dark")] returns with the
    write refused: the fault is absorbed as a warning, nothing is stored
    under the key, and a fresh instance bound to the same key gets its
    initial value ["light"] from its first render, not ["dark"]. *)
Lemma setValue_refused_write_is_not_read_back :
  let w := mounted theme full_browser in
  representable (JStr "dark")
  /\ (exists h, hooks w !! 0 = Some h
                /\ committed h = true
                /\ opt_serializer (options (props h)) = None)
  /\ exists w1,
       setValue 0 (Direct (JStr "dark")) w = (Ok tt, w1)
       /\ head (trace w1)
          = Some (ConsoleWarn (warn_setting "theme") (Some QuotaExceededError))
       /\ stored "theme" w1 = None
       /\ (useLocalStorage_render 1 theme w1).1 = Ok (JStr "light")
       /\ forall w2,
            useLocalStorage_render 1 theme w1 <> (Ok (JStr "dark"), w2).
Proof.
  intros w. split; [|split].
  - exists (quote "dark"). repeat split; try (vm_compute; congruence).
  - exists (mkHook theme (JStr "light") true). by vm_compute.
  - eexists. split; [vm_compute; reflexivity|].
    vm_compute. repeat split. intros w2 Heq. discriminate.
Qed.

Section MalformedText.
Context {T : Type} `{!Platform T}.
Implicit Types (w : World T) (p : Props T).

(** C9.  Whatever the options are, and so whatever the deserializer is, an
    empty stored text is treated as a missing entry: the read path returns
    the resolved initial value, and its only effect is the [getItem] call;
    the deserializer has no part in the outcome, and nothing is logged. *)
Theorem readValue_empty_text_is_absent k init o w :
  stored k w = Some "" ->
  readValue (mkProps k init o) w = (Ok (resolve init), push (GetItem k) w).
Proof.
  intros Hs. rewrite readValue_outcome. unfold read_outcome.
  unfold stored in Hs. destruct (window w) as [win|]; [|done].
  simpl in *. by rewrite Hs.
Qed.

(** C2, as amended.  A non-empty stored text that the deserializer cannot
    make sense of never makes the read path throw: it returns the resolved
    initial value, and the fault [e] is reported once, by [console.error]
    ("Error parsing JSON:") when the default deserializer met it, and by
    [console.warn] ("Error reading localStorage key ...") when a custom
    deserializer threw it. *)
Theorem readValue_malformed_text_falls_back p w raw e :
  stored (key p) w = Some raw ->
  raw <> "" ->
  malformed p raw = Some e ->
  readValue p w =
    (Ok (resolve (initialValue p)),
     log [ match opt_deserializer (options p) with
           | Some _ => ConsoleWarn (warn_reading (key p)) (Some e)
           | None => ConsoleError "Error parsing JSON:" e
           end;
           GetItem (key p) ] w).
Proof.
  intros Hs Hne Hbad. rewrite readValue_outcome. unfold read_outcome.
  unfold stored in Hs. destruct (window w) as [win|]; [|done].
  simpl in Hs. rewrite Hs. rewrite bool_decide_eq_false_2 by done.
  unfold malformed in Hbad. unfold deserialized.
  destruct (opt_deserializer (options p)) as [f|].
  - destruct (f raw); by simplify_eq.
  - case_bool_decide; [done|]. destruct (JSON_parse raw); by simplify_eq.
Qed.

End MalformedText.

Lemma readValue_empty_text_is_absent_witness :
  readValue
    (mkProps "theme" (Literal (JStr "light"))
       (mkOptions None (Some (fun _ => Throw (Error "unreadable"))) None))
    (browser [("theme", "")])
  = (Ok (JStr "light"), push (GetItem "theme") (browser [("theme", "")])).
Proof.
  apply (readValue_empty_text_is_absent "theme" (Literal (JStr "light"))
           (mkOptions None (Some (fun _ => Throw (Error "unreadable"))) None)
           (browser [("theme", "")])).
  vm_compute. reflexivity.
Defined.

Lemma readValue_malformed_text_falls_back_witness :
  readValue theme (browser [("theme", "{oops")])
  = (Ok (JStr "light"),
     log [ ConsoleError "Error parsing JSON:"
             (SyntaxError "Unexpected token or end of JSON input");
           GetItem "theme" ] (browser [("theme", "{oops")])).
Proof.
  apply (readValue_malformed_text_falls_back theme
           (browser [("theme", "{oops")]) "{oops"
           (SyntaxError "Unexpected token or end of JSON input")).
  - vm_compute. reflexivity.
  - vm_compute. congruence.
  - vm_compute. reflexivity.
Defined.

(** C2 as stated fails.  With the default deserializer the stored text
    [{oops] is malformed and the read path does fall back to ["light"], but
    no warning is logged: what is logged is an error.  The empty text, which
    [JSON.parse] rejects as well, falls back with nothing on the console at
    all. *)
Lemma malformed_text_logs_no_warning :
  let w := browser [("theme", "{oops")] in
  let w0 := browser [("theme", "")] in
  (stored "theme" w = Some "{oops"
   /\ malformed theme "{oops"
      = Some (SyntaxError "Unexpected token or end of JSON input")
   /\ (readValue theme w).1 = Ok (JStr "light")
   /\ ~ (exists msg err, ConsoleWarn msg err ∈ trace (after (readValue theme) w)))
  /\
  (stored "theme" w0 = Some ""
   /\ malformed theme ""
      = Some (SyntaxError "Unexpected token or end of JSON input")
   /\ (readValue theme w0).1 = Ok (JStr "light")
   /\ ~ (exists x, x ∈ trace (after (readValue theme) w0)
                   /\ is_console x = true)).
Proof.
  vm_compute. repeat split.
  - intros (msg & err & Hin).
    repeat (apply elem_of_cons in Hin as [Hin|Hin]; [discriminate|]).
    by apply elem_of_nil in Hin.
  - intros (x & Hin & Hx).
    repeat (apply elem_of_cons in Hin as [->|Hin]; [discriminate|]).
    by apply elem_of_nil in Hin.
Qed.

Section Faults.
Context {T : Type} `{!Platform T}.
Implicit Types (w : World T) (p : Props T).

Lemma read_outcome_push p e w : read_outcome p (push e w) = read_outcome p w.
Proof. done. Qed.

(** A fault of line 226 ends in the [catch]: one more warning, and
    otherwise only what computing the new value logged. *)
Lemma setValue_body_faulted w id p value nv e :
  (newValue_of p value w).1 = Ok nv ->
  write_fault p nv w = Some e ->
  exists w' new,
    setValue_body id p value w = (Ok tt, w')
    /\ hooks w' = hooks w
    /\ window w' = window w
    /\ trace w' = ConsoleWarn (warn_setting (key p)) (Some e) :: new ++ trace w
    /\ filter (fun x => is_dispatch x = true) new = [].
Proof.
  intros Hnv Hfault.
  unfold write_fault in Hfault. unfold setValue_body.
  destruct (window w) as [win|] eqn:Hw.
  - (* in a browser *)
    destruct (newValue_of p value w) as [r w1] eqn:Hnew. simpl in Hnv. subst r.
    destruct (newValue_of_frame _ _ _ _ _ Hnew) as (new & -> & Hnd).
    assert (Hfil : filter (fun x => is_dispatch x = true) new = []).
    { clear -Hnd. induction Hnd as [|x l Hx _ IH]; [done|].
      rewrite filter_cons_False; [done|congruence]. }
    unfold localStorage_setItem. mrun. rewrite Hw. simpl.
    rewrite Hnew. simpl. rewrite Hw. simpl.
    destruct (serializer (options p) nv) as [text|e'] eqn:Hser; simpl.
    + destruct (Storage_setItem _ _ _) as [st'|e'] eqn:Hset; [done|].
      simplify_eq. simpl.
      exists (log (ConsoleWarn (warn_setting (key p)) (Some e)
                   :: SetItem (key p) (to_DOMString text) :: new) w),
             (SetItem (key p) (to_DOMString text) :: new).
      repeat split; [done|].
      rewrite filter_cons_False; [done|simpl; congruence].
    + simplify_eq.
      exists (log (ConsoleWarn (warn_setting (key p)) (Some e) :: new) w), new.
      by repeat split.
  - (* without one *)
    simplify_eq. mrun. rewrite Hw. simpl.
    destruct value as [v|f].
    + simpl in *. simplify_eq. rewrite Hw. simpl.
      eexists _, [ConsoleWarn (warn_set_server (key p)) None].
      by repeat split.
    + rewrite newValue_of_updater in Hnv. simpl in Hnv.
      rewrite newValue_of_updater, read_outcome_push. simpl.
      rewrite Hnv. simpl. unfold read_outcome. rewrite Hw. simpl.
      eexists _, [ConsoleWarn (warn_set_server (key p)) None].
      by repeat split.
Qed.

(** C10.  When line 226 faults for the new value, be it in the serializer
    or in the store write, [setValue] still returns normally; no instance's
    in-memory value has changed, the store is as it was, nothing has been
    dispatched, and the last thing on the console is the warning that
    carries the fault. *)
Theorem setValue_fault_is_atomic w id h value nv e :
  hooks w !! id = Some h ->
  committed h = true ->
  (newValue_of (props h) value w).1 = Ok nv ->
  write_fault (props h) nv w = Some e ->
  exists w' new,
    setValue id value w = (Ok tt, w')
    /\ hooks w' = hooks w
    /\ window w' = window w
    /\ trace w' = ConsoleWarn (warn_setting (key (props h))) (Some e)
                  :: new ++ trace w
    /\ filter (fun x => is_dispatch x = true) new = [].
Proof.
  intros Hh Hc Hnv Hfault. rewrite (setValue_committed _ _ _ _ Hh Hc).
  by apply setValue_body_faulted with (nv := nv).
Qed.

(** C3 fails on the code.  Outside a browser [removeValue] has no [try]
    around its store access: the warning is logged and then the call
    throws; called before the layout effects, it throws as well. *)
Theorem removeValue_without_window_throws w id h :
  window w = None ->
  hooks w !! id = Some h ->
  removeValue id w =
    if committed h
    then (Throw (ReferenceError "window is not defined"),
          push (ConsoleWarn (warn_remove_server (key (props h))) None) w)
    else (Throw (Error "Cannot call an event handler while rendering."), w).
Proof.
  intros Hw Hh. unfold removeValue, useEventCallback. rewrite Hh.
  destruct (committed h); [|done].
  unfold removeValue_body, localStorage_removeItem. mrun.
  rewrite Hw. simpl. by rewrite Hw.
Qed.

(** The sibling path: outside a browser [setValue] absorbs the same fault
    and returns. *)
Lemma setValue_without_window_absorbed w id h v :
  window w = None ->
  hooks w !! id = Some h ->
  committed h = true ->
  setValue id (Direct v) w =
    (Ok tt,
     log [ ConsoleWarn (warn_setting (key (props h)))
             (Some (ReferenceError "window is not defined"));
           ConsoleWarn (warn_set_server (key (props h))) None ] w).
Proof.
  intros Hw Hh Hc. rewrite (setValue_committed _ _ _ _ Hh Hc).
  unfold setValue_body. mrun. rewrite Hw. simpl. by rewrite Hw.
Qed.

End Faults.

Lemma setValue_fault_is_atomic_witness :
  exists w' new,
    setValue 0 (Direct (JStr "dark")) (mounted theme full_browser) = (Ok tt, w')
    /\ hooks w' = hooks (mounted theme full_browser)
    /\ window w' = window (mounted theme full_browser)
    /\ trace w' = ConsoleWarn (warn_setting "theme") (Some QuotaExceededError)
                  :: new ++ trace (mounted theme full_browser)
    /\ filter (fun x => is_dispatch x = true) new = [].
Proof.
  apply (setValue_fault_is_atomic (mounted theme full_browser) 0
           (mkHook theme (JStr "light") true) (Direct (JStr "dark"))
           (JStr "dark") QuotaExceededError);
    vm_compute; reflexivity.
Defined.

Lemma removeValue_without_window_throws_witness :
  removeValue 0 (mounted theme server) =
    (Throw (ReferenceError "window is not defined"),
     push (ConsoleWarn (warn_remove_server "theme") None) (mounted theme server)).
Proof.
  apply (removeValue_without_window_throws (mounted theme server) 0
           (mkHook theme (JStr "light") true));
    vm_compute; reflexivity.
Defined.

Section RemovePath.
Context {T : Type} `{!Platform T}.
Implicit Types (w : World T) (p : Props T).


(** The remove path in a browser: the entry goes, the in-memory value
    becomes the resolved initial value, the notification is dispatched. *)
Lemma removeValue_body_removed id p w win :
  window w = Some win ->
  removeValue_body id p w =
    run_listeners (win_listeners win)
      (mkEvent "local-storage" (Some (key p)))
      (push (DispatchEvent (mkEvent "local-storage" (Some (key p))))
         (set_state id (resolve (initialValue p))
            (with_storage (Storage_removeItem (key p) (localStorage win))
               (push (RemoveItem (key p)) w)))).
Proof.
  intros Hw.
  unfold removeValue_body, localStorage_removeItem, window_dispatchEvent,
    setStoredValue. mrun. rewrite Hw. simpl. rewrite Hw. simpl.
  unfold with_storage, set_state, push. simpl. by rewrite Hw.
Qed.

(** With no entry under the key, a read is the resolved initial value. *)
Lemma read_outcome_absent p w :
  stored (key p) w = None ->
  (read_outcome p w).1 = resolve (initialValue p).
Proof.
  unfold stored, read_outcome. destruct (window w) as [win|]; simpl; [|done].
  by intros ->.
Qed.


End RemovePath.


Section Notifications.
Context {T : Type} `{!Platform T}.
Implicit Types (w : World T) (p : Props T).

Lemma concerns_spec (event_key : option string) k :
  concerns event_key k = true <->
  event_key = None \/ event_key = Some "" \/ event_key = Some k.
Proof.
  unfold concerns. destruct event_key as [k'|]; [|by intuition].
  rewrite orb_true_iff, !bool_decide_eq_true.
  split; [intros [->| ->]; auto|].
  intros [?|[[= ->]|[= ->]]]; [done|auto..].
Qed.

Lemma app_eq_self {A} (new l : list A) : new ++ l = l -> new = [].
Proof.
  intros Heq. apply (f_equal length) in Heq. rewrite length_app in Heq.
  destruct new; [done|simpl in Heq; lia].
Qed.

(** In a browser a read always starts with the [getItem] call. *)
Lemma read_outcome_reads p w win :
  window w = Some win -> GetItem (key p) ∈ (read_outcome p w).2.
Proof.
  intros Hw. unfold read_outcome. rewrite Hw.
  destruct (Storage_getItem _ _) as [raw|]; [|set_solver].
  case_bool_decide; [set_solver|].
  destruct (deserialized p raw). set_solver.
Qed.

(** C5, as amended.  A notification makes an instance bound to [k] read
    the store again exactly when its [key] is missing, is the empty text,
    or is [k]; then the in-memory value becomes the value just read.  Any
    other notification leaves the world as it is. *)
Theorem handleStorageChange_refreshes_iff_concerned w win id h ev :
  window w = Some win ->
  hooks w !! id = Some h ->
  let k := key (props h) in
  let concerned :=
    ev_key ev = None \/ ev_key ev = Some "" \/ ev_key ev = Some k in
  exists w',
    handleStorageChange id (props h) ev w = (Ok tt, w')
    /\ ((exists new, trace w' = new ++ trace w /\ GetItem k ∈ new)
        <-> concerned)
    /\ (concerned ->
        exists v w_r, readValue (props h) w = (Ok v, w_r)
                      /\ w' = set_state id v w_r
                      /\ state_of id w' = Some v)
    /\ (~ concerned -> w' = w).
Proof.
  intros Hw Hh k concerned.
  rewrite handleStorageChange_outcome.
  pose proof (concerns_spec (ev_key ev) k) as Hspec. fold concerned in Hspec.
  fold k. destruct (concerns (ev_key ev) k) eqn:Hc.
  - assert (Hyes : concerned) by by apply Hspec.
    eexists. split; [done|]. split; [|split].
    + split; [done|]. intros _.
      exists (read_outcome (props h) w).2. split; [done|].
      by eapply read_outcome_reads.
    + intros _. rewrite readValue_outcome. eexists _, _.
      split; [done|]. split; [done|].
      unfold state_of, set_state. simpl. by rewrite lookup_alter_eq, Hh.
    + done.
  - assert (Hno : ~ concerned).
    { intros Hyes. apply Hspec in Hyes. congruence. }
    exists w. split; [done|]. split; [|split]; [|done..].
    split; [|done]. intros (new & Hnew & Hin).
    symmetry in Hnew. apply app_eq_self in Hnew. subst new.
    by apply elem_of_nil in Hin.
Qed.

End Notifications.

Lemma handleStorageChange_refreshes_iff_concerned_witness :
  let w := written_elsewhere "theme" (quote "dark") (mounted theme (browser [])) in
  let ev := mkEvent "storage" (Some "theme") in
  exists w',
    handleStorageChange 0 theme ev w = (Ok tt, w')
    /\ ((exists new, trace w' = new ++ trace w /\ GetItem "theme" ∈ new)
        <-> (ev_key ev = None \/ ev_key ev = Some "" \/ ev_key ev = Some "theme"))
    /\ ((ev_key ev = None \/ ev_key ev = Some "" \/ ev_key ev = Some "theme") ->
        exists v w_r, readValue theme w = (Ok v, w_r)
                      /\ w' = set_state 0 v w_r
                      /\ state_of 0 w' = Some v)
    /\ (~ (ev_key ev = None \/ ev_key ev = Some "" \/ ev_key ev = Some "theme") ->
        w' = w).
Proof.
  intros w ev.
  apply (handleStorageChange_refreshes_iff_concerned w
           (mkWindow (mkStorage {[ "theme" := quote "dark" ]} None) subscriptions)
           0 (mkHook theme (JStr "light") true) ev);
    vm_compute; reflexivity.
Defined.

(** C5 as stated fails.  An instance bound to ["theme"] receives a
    notification that carries a key, the empty text, which is not its own;
    it reads the store again and its in-memory value changes from ["light"]
    to ["dark"].  Such a notification is what [setValue] of an instance bound
    to the key [""] dispatches. *)
Lemma notification_with_empty_key_refreshes :
  let w := written_elsewhere "theme" (quote "dark") (mounted theme (browser [])) in
  let ev := mkEvent "local-storage" (Some "") in
  (ev_key ev <> None /\ ev_key ev <> Some "theme"
   /\ state_of 0 w = Some (JStr "light")
   /\ state_of 0 (after (handleStorageChange 0 theme ev) w) = Some (JStr "dark")
   /\ state_of 0 (after (handleStorageChange 0 theme ev) w) <> state_of 0 w)
  /\
  (let other := mkProps "" (Literal JNull) default_options in
   let w2 := after (mount 1 other) w in
   state_of 0 w2 = Some (JStr "light")
   /\ state_of 0 (after (setValue 1 (Direct (JBool true))) w2) = Some (JStr "dark")).
Proof. vm_compute. repeat split; congruence. Qed.

Section Updaters.
Context {T : Type} `{!Platform T}.
#[local] Arguments newValue_of : simpl never.
Implicit Types (w : World T) (p : Props T).

(** Calling [setValue] with a function is calling it with the function's
    result on the value [readValue] returns at that moment. *)
Lemma setValue_updater_reads_store w id h f prev w_r nv :
  hooks w !! id = Some h ->
  committed h = true ->
  readValue (props h) w = (Ok prev, w_r) ->
  f prev = Ok nv ->
  setValue id (Updater f) w = setValue id (Direct nv) w_r.
Proof.
  intros Hh Hc Hread Hf. rewrite readValue_outcome in Hread.
  injection Hread as Hprev <-.
  rewrite (setValue_committed _ _ _ _ Hh Hc).
  rewrite (setValue_committed id h (Direct nv) (log _ w) Hh Hc).
  unfold setValue_body. mrun.
  destruct (window w) as [win|] eqn:Hw; simpl.
  - rewrite Hw. simpl.
    rewrite newValue_of_updater, ?newValue_of_direct, Hprev, Hf. simpl.
    by rewrite ?Hw.
  - assert (Hnil : (read_outcome (props h) w).2 = []).
    { unfold read_outcome. by rewrite Hw. }
    rewrite Hnil, log_nil, Hw. simpl.
    rewrite newValue_of_updater, ?newValue_of_direct, read_outcome_push.
    rewrite Hprev, Hf, Hnil, log_nil. simpl. by rewrite ?Hw.
Qed.

(** What is read afresh does not depend on any in-memory value. *)
Lemma readValue_ignores_state p id x w :
  (readValue p (set_state id x w)).1 = (readValue p w).1.
Proof. by rewrite !readValue_outcome. Qed.

End Updaters.

(** C4.  [setValue(f)] is [setValue] of [f] applied to the value that
    [readValue] returns at the time of the call, and that value is the same
    whatever the instances hold in memory.  In particular: after
    [useLocalStorage("count", () => 0)] is mounted over an empty store, three
    calls [setValue(prev => prev + 1)] leave 3 in memory and the text ["3"]
    in the store; and an instance still holding 0 over a store that says
    ["41"] goes to 42, not to 1. *)
Theorem setValue_updater_uses_fresh_read :
  (forall (T : Type) (P : Platform T) (w : World T) id h f prev w_r nv,
      hooks w !! id = Some h ->
      committed h = true ->
      readValue (props h) w = (Ok prev, w_r) ->
      f prev = Ok nv ->
      setValue id (Updater f) w = setValue id (Direct nv) w_r
      /\ forall id' x, (readValue (props h) (set_state id' x w)).1 = Ok prev)
  /\ (let w3 := after (setValue 0 increment;; setValue 0 increment;;
                       setValue 0 increment)
                  (mounted count (browser [])) in
      state_of 0 w3 = Some (JNum 3) /\ stored "count" w3 = Some "3")
  /\ (let w := written_elsewhere "count" "41" (mounted count (browser [])) in
      state_of 0 w = Some (JNum 0)
      /\ state_of 0 (after (setValue 0 increment) w) = Some (JNum 42)
      /\ stored "count" (after (setValue 0 increment) w) = Some "42").
Proof.
  split; [|split].
  - intros T P w id h f prev w_r nv Hh Hc Hread Hf. split.
    + by eapply setValue_updater_reads_store.
    + intros id' x. by rewrite readValue_ignores_state, Hread.
  - vm_compute. by split.
  - vm_compute. by repeat split.
Qed.

Lemma setValue_updater_uses_fresh_read_witness :
  let w := written_elsewhere "count" "41" (mounted count (browser [])) in
  setValue 0 (Updater plus_one) w
  = setValue 0 (Direct (JNum 42)) (push (GetItem "count") w)
  /\ forall id' x, (readValue count (set_state id' x w)).1 = Ok (JNum 41).
Proof.
  intros w.
  apply (proj1 setValue_updater_uses_fresh_read JsValue platform w 0
           (mkHook count (JNum 0) true) plus_one (JNum 41)
           (push (GetItem "count") w) (JNum 42));
    vm_compute; reflexivity.
Defined.

Section Subscriptions.
Context {T : Type} `{!Platform T}.
Implicit Types (w : World T).

(** C7, as amended.  In a browser, a ref that holds nothing does not stop
    the subscription: the effect falls back to the window and attaches the
    listener there, returning the cleanup that takes it off again.  The
    effect subscribes nothing, and changes nothing, only when the object
    the ref holds has no [addEventListener]. *)
Theorem useEventListener_null_ref_falls_back_to_window
    w win eventName handler listenerOptions :
  window w = Some win ->
  let listener := mkListener eventName handler listenerOptions in
  useEventListener_effect eventName handler (Some (mkRef None)) listenerOptions w
  = (Ok (Some (TWindow, listener)),
     mkWorld
       (Some (mkWindow (localStorage win) (win_listeners win ++ [listener])))
       (objects w) (hooks w) (AddEventListener TWindow listener :: trace w))
  /\ forall n,
       can_listen (TObject n) w = false ->
       useEventListener_effect eventName handler (Some (mkRef (Some n)))
         listenerOptions w
       = (Ok None, w).
Proof.
  intros Hw listener. split.
  - unfold useEventListener_effect, targetElement_of, addEventListener. mrun.
    rewrite Hw. simpl. unfold set_listeners, listeners_of, push. simpl.
    by rewrite Hw.
  - intros n Hn.
    unfold useEventListener_effect, targetElement_of. mrun. by rewrite Hn.
Qed.

End Subscriptions.

Lemma useEventListener_null_ref_falls_back_to_window_witness :
  let listener := mkListener "click" (UserHandler 7) None in
  useEventListener_effect "click" (UserHandler 7) (Some (mkRef None)) None
    (browser [])
  = (Ok (Some (TWindow, listener)),
     mkWorld (Some (mkWindow (mkStorage ∅ None) [listener])) ∅ ∅
       [AddEventListener TWindow listener])
  /\ forall n,
       can_listen (TObject n) (browser []) = false ->
       useEventListener_effect "click" (UserHandler 7) (Some (mkRef (Some n)))
         None (browser [])
       = (Ok None, browser []).
Proof.
  apply (useEventListener_null_ref_falls_back_to_window (browser [])
           (mkWindow (mkStorage ∅ None) []) "click" (UserHandler 7) None).
  reflexivity.
Defined.

(** C7 as stated fails.  With a ref whose [current] is [null], the effect
    does subscribe: it calls [addEventListener] on the window, which
    afterwards carries a listener it did not carry before. *)
Lemma useEventListener_null_ref_subscribes :
  let w := browser [] in
  let w' := after (useEventListener_effect "click" (UserHandler 7)
                     (Some (mkRef None)) None) w in
  current (mkRef None) = None
  /\ listeners_of TWindow w = []
  /\ listeners_of TWindow w' = [mkListener "click" (UserHandler 7) None]
  /\ listeners_of TWindow w' <> listeners_of TWindow w
  /\ trace w' = [AddEventListener TWindow (mkListener "click" (UserHandler 7) None)].
Proof. vm_compute. by repeat split. Qed.

(** C8.  The table renders the auth page at [/login]; navigating to [/]
    ends, by the [Navigate] element, at [/customers], and renders what
    navigating to [/customers] renders: the customers list inside the
    layout. *)
Theorem router_login_and_root_redirect :
  Router.matchRoutes Router.router "/login" = Some [Router.AuthPage]
  /\ Router.matchRoutes Router.router "/" = Some [Router.Navigate "/customers"]
  /\ Router.rendered "/" = Router.rendered "/customers"
  /\ Router.rendered "/customers" = Some [Router.Root; Router.CustomersPage].
Proof. vm_compute. by repeat split. Qed.

(** * Further properties of the hook *)

Section Dispatch.
Context {T : Type} `{!Platform T}.
Implicit Types (w : World T) (p : Props T).

(** A read depends on the world through the browser only. *)
Lemma read_outcome_window p w w' :
  window w' = window w -> read_outcome p w' = read_outcome p w.
Proof. intros Hw. unfold read_outcome. by rewrite Hw. Qed.

(** What one listener does when an event reaches it. *)
Lemma listener_outcome l ev w :
  try_catch (invoke l ev) (fun error => console_error "Uncaught" error) w
  = (Ok tt,
     match l_handler l with
     | HandleStorageChange id =>
         match hooks w !! id with
         | Some h =>
             if concerns (ev_key ev) (key (props h))
             then set_state id (read_outcome (props h) w).1
                    (log (read_outcome (props h) w).2 w)
             else w
         | None => w
         end
     | UserHandler _ => w
     end).
Proof.
  unfold invoke, try_catch. destruct (l_handler l) as [id|n]; [|done].
  destruct (hooks w !! id) as [h|]; [|done].
  by rewrite handleStorageChange_outcome.
Qed.

Lemma run_listeners_cons l ls ev w :
  run_listeners (l :: ls) ev w =
    run_listeners ls ev
      (if bool_decide (l_type l = ev_type ev)
       then (try_catch (invoke l ev)
               (fun error => console_error "Uncaught" error) w).2
       else w).
Proof.
  cbn [run_listeners]. unfold mbind, M_bind.
  case_bool_decide; [|done]. by rewrite listener_outcome.
Qed.

(** As [run_listeners_inv], for properties that only survive the refresh
    of an instance the event concerns. *)
Lemma run_listeners_inv_concerned (P : World T -> Prop) ls ev :
  (forall w id h,
      P w -> hooks w !! id = Some h ->
      concerns (ev_key ev) (key (props h)) = true ->
      P (set_state id (read_outcome (props h) w).1
           (log (read_outcome (props h) w).2 w))) ->
  forall w, P w -> exists w', run_listeners ls ev w = (Ok tt, w') /\ P w'.
Proof.
  intros Hstep. induction ls as [|l ls IH]; intros w HP.
  - by exists w.
  - rewrite run_listeners_cons. case_bool_decide; [|by apply IH].
    rewrite listener_outcome. simpl.
    destruct (l_handler l) as [id|n]; [|by apply IH].
    destruct (hooks w !! id) as [h|] eqn:Hh; [|by apply IH].
    destruct (concerns _ _) eqn:Hc; apply IH; eauto.
Qed.

Lemma dispatch_frame_refl w : dispatch_frame w w.
Proof. repeat split. apply same_instances_refl. Qed.

Lemma dispatch_frame_step w0 w id v new :
  dispatch_frame w0 w -> dispatch_frame w0 (set_state id v (log new w)).
Proof.
  intros (Hwin & Hobj & Hs). repeat split; [done..|].
  eapply same_instances_trans; [exact Hs|].
  eapply same_instances_trans; [apply same_instances_log|].
  apply same_instances_set_state.
Qed.

Lemma dispatch_frame_trans w1 w2 w3 :
  dispatch_frame w1 w2 -> dispatch_frame w2 w3 -> dispatch_frame w1 w3.
Proof.
  intros (Hw1 & Ho1 & Hs1) (Hw2 & Ho2 & Hs2). repeat split; [congruence..|].
  by eapply same_instances_trans.
Qed.

Lemma dispatch_frame_lookup w0 w id h :
  dispatch_frame w0 w -> hooks w0 !! id = Some h ->
  exists h', hooks w !! id = Some h' /\ props h' = props h
             /\ committed h' = committed h.
Proof. intros (_ & _ & Hs). by apply same_instances_lookup. Qed.

(** One listener keeps the frame. *)
Lemma listener_frame l ev w :
  dispatch_frame w
    (try_catch (invoke l ev) (fun error => console_error "Uncaught" error) w).2.
Proof.
  rewrite listener_outcome. simpl.
  destruct (l_handler l) as [id|n]; [|apply dispatch_frame_refl].
  destruct (hooks w !! id) as [h|]; [|apply dispatch_frame_refl].
  destruct (concerns _ _); [|apply dispatch_frame_refl].
  apply dispatch_frame_step, dispatch_frame_refl.
Qed.

(** Once an instance holds what a read returns, the rest of a dispatch
    keeps it so: every later refresh reads the same store. *)
Lemma run_listeners_keeps_synced ls ev w0 w id p :
  dispatch_frame w0 w ->
  (exists h, hooks w !! id = Some h /\ props h = p
             /\ storedValue h = (read_outcome p w0).1) ->
  exists w',
    run_listeners ls ev w = (Ok tt, w')
    /\ dispatch_frame w0 w'
    /\ state_of id w' = Some (read_outcome p w0).1.
Proof.
  intros Hframe Hsync.
  destruct (run_listeners_inv
              (fun w1 => dispatch_frame w0 w1
                         /\ exists h, hooks w1 !! id = Some h /\ props h = p
                              /\ storedValue h = (read_outcome p w0).1)
              ls ev) with (w := w) as (w' & Hrun & Hf & h' & Hh' & _ & Hv');
    [|done|].
  - intros w1 id' h1 (Hf1 & h & Hh & Hp & Hv) Hh1.
    split; [by apply dispatch_frame_step|].
    unfold set_state. simpl. destruct (decide (id' = id)) as [->|Hne].
    + rewrite lookup_alter_eq, Hh. simpl. eexists; split; [done|].
      simpl. split; [done|]. simplify_eq.
      f_equal. apply read_outcome_window. by destruct Hf1.
    + rewrite lookup_alter_ne by done. eauto.
  - exists w'. split; [done|]. split; [done|].
    unfold state_of. by rewrite Hh', <- Hv'.
Qed.

(** A dispatch brings every instance that listens for the event, and that
    the event concerns, to what a read of the store returns. *)
Lemma run_listeners_syncs ls ev : forall w id h l,
  l ∈ ls -> l_type l = ev_type ev -> l_handler l = HandleStorageChange id ->
  hooks w !! id = Some h ->
  concerns (ev_key ev) (key (props h)) = true ->
  exists w',
    run_listeners ls ev w = (Ok tt, w')
    /\ dispatch_frame w w'
    /\ state_of id w' = Some (read_outcome (props h) w).1.
Proof.
  induction ls as [|l0 ls IH]; intros w id h l Hin Hty Hhd Hh Hc.
  - by apply elem_of_nil in Hin.
  - rewrite run_listeners_cons.
    apply elem_of_cons in Hin as [->|Hin].
    + rewrite bool_decide_eq_true_2 by done.
      rewrite listener_outcome. simpl. rewrite Hhd, Hh, Hc.
      apply run_listeners_keeps_synced.
      * apply dispatch_frame_step, dispatch_frame_refl.
      * unfold set_state. simpl. rewrite lookup_alter_eq, Hh. simpl. eauto.
    + set (w1 := if bool_decide (l_type l0 = ev_type ev)
                 then (try_catch (invoke l0 ev)
                         (fun error => console_error "Uncaught" error) w).2
                 else w).
      assert (Hf1 : dispatch_frame w w1).
      { unfold w1. case_bool_decide; [apply listener_frame|apply dispatch_frame_refl]. }
      destruct (dispatch_frame_lookup _ _ _ _ Hf1 Hh) as (h1 & Hh1 & Hp1 & _).
      destruct (IH w1 id h1 l Hin Hty Hhd Hh1) as (w' & Hrun & Hf & Hst).
      { by rewrite Hp1. }
      exists w'. split; [done|]. split; [by eapply dispatch_frame_trans|].
      rewrite Hst, Hp1. do 2 f_equal. apply read_outcome_window. by destruct Hf1.
Qed.

End Dispatch.

Section WriteOutcomes.
Context {T : Type} `{!Platform T}.
Implicit Types (w : World T) (p : Props T).
#[local] Arguments newValue_of : simpl never.

(** What a read logs is [getItem] and console calls only. *)
Lemma read_outcome_quiet p w :
  Forall (fun x => is_write x = false) (read_outcome p w).2.
Proof.
  unfold read_outcome. destruct (window w) as [win|]; [|done].
  destruct (Storage_getItem _ _) as [raw|]; [|by repeat constructor].
  case_bool_decide; [by repeat constructor|].
  unfold deserialized. destruct (opt_deserializer _) as [g|].
  - destruct (g raw); by repeat constructor.
  - case_bool_decide; [by repeat constructor|].
    destruct (JSON_parse raw); by repeat constructor.
Qed.

Lemma filter_quiet (new : list Effect) :
  Forall (fun x => is_write x = false) new ->
  filter (fun x => is_write x = true) new = [].
Proof.
  induction 1 as [|x l Hx _ IH]; [done|].
  rewrite filter_cons_False; [done|congruence].
Qed.

(** An updater that throws ends in the [catch] before the store is
    touched. *)
Lemma setValue_body_updater_threw w id p f e :
  f (read_outcome p w).1 = Throw e ->
  exists new,
    setValue_body id p (Updater f) w
    = (Ok tt, log (ConsoleWarn (warn_setting (key p)) (Some e) :: new) w)
    /\ filter (fun x => is_write x = true) new = [].
Proof.
  intros Hf. unfold setValue_body. mrun.
  assert (Hq : filter (fun x => is_write x = true) (read_outcome p w).2 = []).
  { apply filter_quiet, read_outcome_quiet. }
  destruct (window w) as [win|] eqn:Hw; simpl.
  - rewrite newValue_of_updater, Hf. simpl.
    by exists (read_outcome p w).2.
  - rewrite newValue_of_updater, read_outcome_push, Hf. simpl.
    assert (Hnil : (read_outcome p w).2 = []).
    { unfold read_outcome. by rewrite Hw. }
    rewrite Hnil.
    by exists [ConsoleWarn (warn_set_server (key p)) None].
Qed.

(** A fault of line 226 leaves the world as it was, but for the trace. *)
Lemma setValue_body_write_faulted w id p value nv e :
  (newValue_of p value w).1 = Ok nv ->
  write_fault p nv w = Some e ->
  exists new,
    setValue_body id p value w
    = (Ok tt, log (ConsoleWarn (warn_setting (key p)) (Some e) :: new) w)
    /\ filter (fun x => is_dispatch x = true) new = [].
Proof.
  intros Hnv Hfault. unfold write_fault in Hfault. unfold setValue_body.
  destruct (window w) as [win|] eqn:Hw.
  - destruct (newValue_of p value w) as [r w1] eqn:Hnew. simpl in Hnv. subst r.
    destruct (newValue_of_frame _ _ _ _ _ Hnew) as (new & -> & Hnd).
    assert (Hfil : filter (fun x => is_dispatch x = true) new = []).
    { clear -Hnd. induction Hnd as [|x l Hx _ IH]; [done|].
      rewrite filter_cons_False; [done|congruence]. }
    unfold localStorage_setItem. mrun. rewrite Hw. simpl.
    rewrite Hnew. simpl. rewrite Hw. simpl.
    destruct (serializer (options p) nv) as [text|e'] eqn:Hser; simpl.
    + destruct (Storage_setItem _ _ _) as [st'|e'] eqn:Hset; [done|].
      simplify_eq. simpl.
      exists (SetItem (key p) (to_DOMString text) :: new). split; [done|].
      rewrite filter_cons_False; [done|simpl; congruence].
    + simplify_eq. by exists new.
  - simplify_eq. mrun. rewrite Hw. simpl.
    destruct value as [v|f].
    + rewrite newValue_of_direct in *. simpl in *. simplify_eq. rewrite Hw.
      by exists [ConsoleWarn (warn_set_server (key p)) None].
    + rewrite newValue_of_updater in Hnv. simpl in Hnv.
      rewrite newValue_of_updater, read_outcome_push. simpl.
      rewrite Hnv. simpl. unfold read_outcome. rewrite Hw. simpl.
      by exists [ConsoleWarn (warn_set_server (key p)) None].
Qed.

(** The three ways a call of [setValue] can go. *)
Lemma setValue_body_cases w p value :
  (exists e, (newValue_of p value w).1 = Throw e)
  \/ (exists nv e, (newValue_of p value w).1 = Ok nv
                   /\ write_fault p nv w = Some e)
  \/ (exists win nv w1 text st',
        window w = Some win
        /\ newValue_of p value w = (Ok nv, w1)
        /\ serializer (options p) nv = Ok text
        /\ Storage_setItem (key p) (to_DOMString text) (localStorage win) = Ok st').
Proof.
  destruct (newValue_of p value w) as [[nv|e] w1] eqn:Hnew; [|left; by exists e].
  right. destruct (write_fault p nv w) as [e|] eqn:Hfault.
  { left. by exists nv, e. }
  right. unfold write_fault in Hfault.
  destruct (window w) as [win|]; [|done].
  destruct (serializer _ nv) as [text|] eqn:Hser; [|done].
  destruct (Storage_setItem _ _ _) as [st'|] eqn:Hset; [|done].
  by exists win, nv, w1, text, st'.
Qed.

(** A call that faults leaves the world as it was, but for the trace, and
    broadcasts nothing. *)
Lemma setValue_body_fault_frame w id p value :
  (exists e, (newValue_of p value w).1 = Throw e)
  \/ (exists nv e, (newValue_of p value w).1 = Ok nv
                   /\ write_fault p nv w = Some e) ->
  exists e new,
    setValue_body id p value w
    = (Ok tt, log (ConsoleWarn (warn_setting (key p)) (Some e) :: new) w)
    /\ filter (fun x => is_dispatch x = true) new = [].
Proof.
  intros [(e & He)|(nv & e & Hnv & Hfault)].
  - destruct value as [v|f]; [done|].
    rewrite newValue_of_updater in He. simpl in He.
    destruct (setValue_body_updater_threw w id p f e He) as (new & Hrun & Hq).
    exists e, new. split; [done|].
    clear -Hq. induction new as [|x l IH]; [done|].
    destruct x; simpl in *; try (rewrite filter_cons_True in Hq by done; done);
      rewrite filter_cons_False in Hq by (simpl; congruence);
      rewrite filter_cons_False by (simpl; congruence); by apply IH.
  - destruct (setValue_body_write_faulted w id p value nv e Hnv Hfault)
      as (new & ?). by exists e, new.
Qed.

End WriteOutcomes.

Section WriteProperties.
Context {T : Type} `{!Platform T}.
Implicit Types (w : World T) (p : Props T).

Lemma Storage_setItem_quota k v st st' :
  Storage_setItem k v st = Ok st' ->
  quota st' = quota st /\ items st' = <[k := v]> (items st).
Proof.
  unfold Storage_setItem. destruct (fits _ _); [|done]. by intros [= <-].
Qed.

(** The world in which the listeners run after a store write. *)
Lemma written_world_frame id nv st' e win w :
  window w = Some win ->
  let wd := push (DispatchEvent e) (set_state id nv (with_storage st' w)) in
  window wd = Some (mkWindow st' (win_listeners win))
  /\ objects wd = objects w
  /\ same_instances w wd.
Proof.
  intros Hw wd. unfold wd. simpl. rewrite Hw. repeat split.
  intros id'. exact (same_instances_set_state id nv w id').
Qed.

(** X1.  [setValue] never throws once the instance is mounted: whatever the
    updater, the serializer and the store do, the call returns; it creates
    and loses no instance, changes no instance's arguments, adds and
    removes no listener, and leaves the objects and the bound of the store
    alone. *)
Theorem setValue_never_throws w id h value :
  hooks w !! id = Some h ->
  committed h = true ->
  exists w',
    setValue id value w = (Ok tt, w')
    /\ same_instances w w'
    /\ objects w' = objects w
    /\ listeners_of TWindow w' = listeners_of TWindow w
    /\ quota_of w' = quota_of w.
Proof.
  intros Hh Hc. rewrite (setValue_committed _ _ _ _ Hh Hc).
  destruct (setValue_body_cases w (props h) value)
    as [Hfault|[Hfault|(win & nv & w1 & text & st' & Hw & Hnew & Hser & Hset)]].
  1,2: destruct (setValue_body_fault_frame w id (props h) value)
         as (e & new & -> & _); [by eauto|];
       eexists; split; [done|]; repeat split; apply same_instances_log.
  rewrite (setValue_body_written _ _ _ _ _ _ _ _ _ Hw Hnew Hser Hset).
  destruct (newValue_of_frame _ _ _ _ _ Hnew) as (new & -> & _).
  match goal with
  | |- context [run_listeners ?ls ?ev ?wd] =>
      destruct (run_listeners_frame ls ev wd) as (w' & -> & Hwin & Hobj & Hs)
  end.
  exists w'. split; [done|].
  destruct (Storage_setItem_quota _ _ _ _ Hset) as [Hq _].
  simpl in Hwin, Hobj. rewrite Hw in Hwin. simpl in Hwin.
  unfold quota_of, listeners_of. rewrite Hwin, Hw. simpl.
  repeat split; [|done|by rewrite Hq].
  eapply same_instances_trans; [|exact Hs].
  intros id'. exact (same_instances_set_state id nv w id').
Qed.

(** X2.  An updater that throws costs nothing: [setValue] returns, the fault is
    logged as a warning, and neither the store nor any instance has been
    touched; the store was read, not written, and nothing was
    dispatched. *)
Theorem setValue_updater_fault_is_absorbed w id h f prev w_r e :
  hooks w !! id = Some h ->
  committed h = true ->
  readValue (props h) w = (Ok prev, w_r) ->
  f prev = Throw e ->
  exists new,
    setValue id (Updater f) w
    = (Ok tt,
       log (ConsoleWarn (warn_setting (key (props h))) (Some e) :: new) w)
    /\ filter (fun x => is_write x = true) new = [].
Proof.
  intros Hh Hc Hread Hf. rewrite readValue_outcome in Hread.
  injection Hread as Hprev _.
  rewrite (setValue_committed _ _ _ _ Hh Hc).
  apply setValue_body_updater_threw. by rewrite Hprev.
Qed.

(** What a read returns when the store holds a text the default
    deserializer parses. *)
Lemma read_outcome_parsed p s v w win :
  window w = Some win ->
  Storage_getItem (key p) (localStorage win) = Some s ->
  opt_deserializer (options p) = None ->
  s <> "" -> s <> "undefined" -> JSON_parse s = Ok v ->
  read_outcome p w = (v, [GetItem (key p)]).
Proof.
  intros Hw Hs Hd Hne Hnu Hp. unfold read_outcome, deserialized.
  rewrite Hw, Hs, Hd. rewrite !bool_decide_eq_false_2 by done. by rewrite Hp.
Qed.

(** X3.  A write reaches every instance bound to the key that listens in the
    same document, and the writer itself: after [setValue(v)] has stored a
    value that reads back as [v], each of them holds [v] in memory. *)
Theorem setValue_reaches_every_listening_instance w win id h v :
  window w = Some win ->
  hooks w !! id = Some h ->
  committed h = true ->
  opt_serializer (options (props h)) = None ->
  representable v ->
  (forall s, JSON_stringify v = Ok (Some s) ->
     fits (quota (localStorage win))
       (<[key (props h) := s]> (items (localStorage win))) = true) ->
  exists w1,
    setValue id (Direct v) w = (Ok tt, w1) /\
    forall id2 h2,
      hooks w !! id2 = Some h2 ->
      key (props h2) = key (props h) ->
      opt_deserializer (options (props h2)) = None ->
      id2 = id \/ subscribed id2 "local-storage" w ->
      state_of id2 w1 = Some v.
Proof.
  intros Hw Hh Hc Hser (s & Hs & Hne & Hnu & Hparse) Hfits.
  rewrite (setValue_committed _ _ _ _ Hh Hc).
  erewrite setValue_body_written; cycle 1.
  - exact Hw.
  - apply newValue_of_direct.
  - unfold serializer. rewrite Hser. exact Hs.
  - unfold Storage_setItem. simpl. by rewrite (Hfits s Hs).
  - set (st' := mkStorage _ _). set (ev := mkEvent _ _).
    set (wd := push (DispatchEvent ev) _).
    assert (Hwd : window wd = Some (mkWindow st' (win_listeners win))).
    { unfold wd. simpl. by rewrite Hw. }
    assert (Hread : forall p, key p = key (props h) ->
                      opt_deserializer (options p) = None ->
                      read_outcome p wd = (v, [GetItem (key p)])).
    { intros p Hk Hd. eapply read_outcome_parsed; [exact Hwd| |done..].
      unfold Storage_getItem, st'. simpl. rewrite Hk. apply lookup_insert_eq. }
    destruct (run_listeners_frame (win_listeners win) ev wd)
      as (w1 & Hrun & _).
    exists w1. split; [done|]. intros id2 h2 Hh2 Hk Hd Hlisten.
    assert (Hh2d : exists h2', hooks wd !! id2 = Some h2'
                               /\ props h2' = props h2
                               /\ (id2 = id -> storedValue h2' = v)).
    { unfold wd. simpl. destruct (decide (id2 = id)) as [->|Hne2].
      - rewrite lookup_alter_eq, Hh2. simpl. eauto.
      - rewrite lookup_alter_ne, Hh2 by done. eexists. by repeat split. }
    destruct Hh2d as (h2' & Hh2' & Hp2' & Hv2').
    destruct Hlisten as [->|(o & Hin)].
    + destruct (run_listeners_keeps_synced (win_listeners win) ev wd wd id
                  (props h2)) as (w' & Hrun' & _ & Hst).
      * apply dispatch_frame_refl.
      * exists h2'. rewrite (Hread (props h2) Hk Hd). simpl. eauto.
      * rewrite Hrun in Hrun'. injection Hrun' as <-.
        by rewrite Hst, (Hread (props h2) Hk Hd).
    + unfold listeners_of in Hin. rewrite Hw in Hin. simpl in Hin.
      destruct (run_listeners_syncs (win_listeners win) ev wd id2 h2' _ Hin)
        as (w' & Hrun' & _ & Hst); [done..| |].
      { rewrite Hp2', Hk. simpl. apply orb_true_iff. right.
        by apply bool_decide_eq_true_2. }
      rewrite Hrun in Hrun'. injection Hrun' as <-.
      by rewrite Hst, Hp2', (Hread (props h2) Hk Hd).
Qed.

(** A notification about a non-empty key passes by every instance bound
    to another key. *)
Lemma run_listeners_passes_by ls k w id2 h2 :
  k <> "" ->
  hooks w !! id2 = Some h2 ->
  key (props h2) <> k ->
  exists w',
    run_listeners ls (mkEvent "local-storage" (Some k)) w = (Ok tt, w')
    /\ window w' = window w
    /\ hooks w' !! id2 = Some h2.
Proof.
  intros Hk Hh2 Hne.
  destruct (run_listeners_inv_concerned
              (fun w1 => window w1 = window w /\ hooks w1 !! id2 = Some h2)
              ls (mkEvent "local-storage" (Some k))) with (w := w)
    as (w' & Hrun & Hwin & Hh'); [|done|by exists w'].
  intros w1 id' h' (Hwin & Hh) Hh' Hc. split; [done|].
  simpl in Hc. rewrite (bool_decide_eq_false_2 (k = "")) in Hc by done.
  apply bool_decide_eq_true in Hc. simpl.
  rewrite lookup_alter_ne; [done|]. intros ->. simplify_eq.
Qed.

(** X4.  A write under [k] stays under [k]: whatever [setValue] is called with
    and however the call goes, the entries of the store under other keys
    are as before; and when [k] is not the empty text, the instances bound
    to other keys are as before too. *)
Theorem setValue_leaves_other_keys w id h value :
  hooks w !! id = Some h ->
  committed h = true ->
  exists w',
    setValue id value w = (Ok tt, w')
    /\ other_entries (key (props h)) w' = other_entries (key (props h)) w
    /\ (key (props h) <> "" ->
        forall id2 h2,
          hooks w !! id2 = Some h2 ->
          key (props h2) <> key (props h) ->
          hooks w' !! id2 = Some h2).
Proof.
  intros Hh Hc. rewrite (setValue_committed _ _ _ _ Hh Hc).
  destruct (setValue_body_cases w (props h) value)
    as [Hfault|[Hfault|(win & nv & w1 & text & st' & Hw & Hnew & Hser & Hset)]].
  1,2: destruct (setValue_body_fault_frame w id (props h) value)
         as (e & new & -> & _); [by eauto|]; by eexists.
  rewrite (setValue_body_written _ _ _ _ _ _ _ _ _ Hw Hnew Hser Hset).
  destruct (newValue_of_frame _ _ _ _ _ Hnew) as (new & -> & _).
  destruct (Storage_setItem_quota _ _ _ _ Hset) as [_ Hitems].
  set (ev := mkEvent _ _). set (wd := push (DispatchEvent ev) _).
  destruct (run_listeners_frame (win_listeners win) ev wd)
    as (w' & Hrun & Hwin & _).
  exists w'. split; [done|]. split.
  - unfold other_entries. rewrite Hwin. unfold wd. simpl. rewrite Hw. simpl.
    by rewrite Hitems, delete_insert_eq.
  - intros Hk id2 h2 Hh2 Hne.
    destruct (run_listeners_passes_by (win_listeners win) (key (props h)) wd
                id2 h2 Hk) as (w'' & Hrun' & _ & Hh2'); [|done|].
    + unfold wd. simpl. rewrite lookup_alter_ne; [done|].
      intros ->. simplify_eq.
    + fold ev in Hrun'. rewrite Hrun in Hrun'. by injection Hrun' as <-.
Qed.

(** Writing then reading through the store, in general: if the text the
    writer's serializer makes of [v] is not empty and the reader's
    deserializer makes [v'] of it, a fresh instance bound to the same key
    returns [v'] from its first render.  The codecs may be custom ones. *)
Lemma setValue_then_render w win id h v text :
  window w = Some win ->
  hooks w !! id = Some h ->
  committed h = true ->
  serializer (options (props h)) v = Ok text ->
  fits (quota (localStorage win))
    (<[key (props h) := to_DOMString text]> (items (localStorage win))) = true ->
  exists w1,
    setValue id (Direct v) w = (Ok tt, w1)
    /\ stored (key (props h)) w1 = Some (to_DOMString text)
    /\ forall id' p',
         key p' = key (props h) ->
         exists w2,
           useLocalStorage_render id' p' w1
           = (Ok (if default true (opt_initializeWithValue (options p'))
                  then (read_outcome p' w1).1
                  else resolve (initialValue p')), w2).
Proof.
  intros Hw Hh Hc Hser Hfits.
  rewrite (setValue_committed _ _ _ _ Hh Hc).
  erewrite setValue_body_written; cycle 1.
  - exact Hw.
  - apply newValue_of_direct.
  - exact Hser.
  - unfold Storage_setItem. by rewrite Hfits.
  - match goal with
    | |- context [run_listeners ?ls ?ev ?wd] =>
        destruct (run_listeners_frame ls ev wd) as (w1 & Hrun & Hwin & _)
    end.
    exists w1. split; [exact Hrun|].
    simpl in Hwin. rewrite Hw in Hwin. simpl in Hwin. split.
    + unfold stored, Storage_getItem. rewrite Hwin. simpl.
      apply lookup_insert_eq.
    + intros id' p' Hk. unfold useLocalStorage_render, initial_state. mrun.
      destruct (default true _); [|by eexists].
      rewrite readValue_outcome. by eexists.
Qed.

Lemma read_outcome_stored p w raw :
  stored (key p) w = Some raw ->
  (read_outcome p w).1 =
    if bool_decide (raw = "") then resolve (initialValue p)
    else (deserialized p raw).1.
Proof.
  unfold stored, read_outcome. destruct (window w) as [win|]; [|done].
  simpl. intros ->. case_bool_decide; [done|].
  by destruct (deserialized p raw).
Qed.

(** X5.  A value that [JSON.stringify] has no text for, [undefined] itself for
    one, is stored as the text [undefined], and a fresh instance with the
    default deserializer reads it back as [undefined]. *)
Theorem setValue_without_json_text_reads_back_undefined w win id h v :
  window w = Some win ->
  hooks w !! id = Some h ->
  committed h = true ->
  opt_serializer (options (props h)) = None ->
  JSON_stringify v = Ok None ->
  fits (quota (localStorage win))
    (<[key (props h) := "undefined"]> (items (localStorage win))) = true ->
  exists w1,
    setValue id (Direct v) w = (Ok tt, w1)
    /\ stored (key (props h)) w1 = Some "undefined"
    /\ forall id' init',
         exists w2,
           useLocalStorage_render id'
             (mkProps (key (props h)) init' default_options) w1
           = (Ok undefined, w2).
Proof.
  intros Hw Hh Hc Hser Hs Hfits.
  destruct (setValue_then_render w win id h v None Hw Hh Hc)
    as (w1 & Hrun & Hst & Hrender); [|done|].
  { unfold serializer. by rewrite Hser. }
  exists w1. split; [done|]. split; [done|]. intros id' init'.
  destruct (Hrender id' (mkProps (key (props h)) init' default_options) eq_refl)
    as (w2 & ->).
  exists w2. simpl. f_equal. f_equal.
  by rewrite (read_outcome_stored
                (mkProps (key (props h)) init' default_options) w1 _ Hst).
Qed.

(** X6.  Custom codecs round-trip like the default ones, as long as the text is
    not empty: if the writer's serializer makes the non-empty text [s] of
    [v] and the reader's deserializer makes [v] of [s], a fresh instance
    returns [v] from its first render. *)
Theorem custom_codec_roundtrip w win id h v ser s de :
  window w = Some win ->
  hooks w !! id = Some h ->
  committed h = true ->
  opt_serializer (options (props h)) = Some ser ->
  ser v = Ok s ->
  s <> "" ->
  de s = Ok v ->
  fits (quota (localStorage win))
    (<[key (props h) := s]> (items (localStorage win))) = true ->
  exists w1,
    setValue id (Direct v) w = (Ok tt, w1)
    /\ forall id' init' ser',
         exists w2,
           useLocalStorage_render id'
             (mkProps (key (props h)) init' (mkOptions ser' (Some de) None)) w1
           = (Ok v, w2).
Proof.
  intros Hw Hh Hc Hser Hs Hne Hde Hfits.
  destruct (setValue_then_render w win id h v (Some s) Hw Hh Hc)
    as (w1 & Hrun & Hst & Hrender); [|done|].
  { unfold serializer. by rewrite Hser, Hs. }
  exists w1. split; [done|]. intros id' init' ser'.
  destruct (Hrender id' (mkProps (key (props h)) init'
                           (mkOptions ser' (Some de) None)) eq_refl)
    as (w2 & ->).
  exists w2. simpl. f_equal. f_equal.
  rewrite (read_outcome_stored
             (mkProps (key (props h)) init' (mkOptions ser' (Some de) None))
             w1 _ Hst).
  rewrite bool_decide_eq_false_2 by done. unfold deserialized. simpl.
  by rewrite Hde.
Qed.

(** X7.  A serializer that makes the empty text of a value loses the value:
    the write succeeds and the entry is there, but every instance that
    reads the key on its first render gets its own initial value, whatever
    its deserializer is. *)
Theorem empty_serialized_text_reads_as_initial w win id h v ser :
  window w = Some win ->
  hooks w !! id = Some h ->
  committed h = true ->
  opt_serializer (options (props h)) = Some ser ->
  ser v = Ok "" ->
  fits (quota (localStorage win))
    (<[key (props h) := ""]> (items (localStorage win))) = true ->
  exists w1,
    setValue id (Direct v) w = (Ok tt, w1)
    /\ stored (key (props h)) w1 = Some ""
    /\ forall id' p',
         key p' = key (props h) ->
         exists w2,
           useLocalStorage_render id' p' w1
           = (Ok (resolve (initialValue p')), w2).
Proof.
  intros Hw Hh Hc Hser Hs Hfits.
  destruct (setValue_then_render w win id h v (Some "") Hw Hh Hc)
    as (w1 & Hrun & Hst & Hrender); [|done|].
  { unfold serializer. by rewrite Hser, Hs. }
  exists w1. split; [done|]. split; [done|]. intros id' p' Hk.
  destruct (Hrender id' p' Hk) as (w2 & ->). exists w2. f_equal. f_equal.
  destruct (default true _); [|done].
  rewrite <- Hk in Hst. by rewrite (read_outcome_stored _ _ _ Hst).
Qed.

(** In a browser a call of [setValue] leaves a browser with the same
    listeners and the same bound on its store. *)
Lemma setValue_browser_frame w win id h value :
  window w = Some win ->
  hooks w !! id = Some h ->
  committed h = true ->
  exists w1 st,
    setValue id value w = (Ok tt, w1)
    /\ window w1 = Some (mkWindow st (win_listeners win))
    /\ quota st = quota (localStorage win)
    /\ same_instances w w1.
Proof.
  intros Hw Hh Hc. rewrite (setValue_committed _ _ _ _ Hh Hc).
  destruct (setValue_body_cases w (props h) value)
    as [Hfault|[Hfault|(win' & nv & w1 & text & st' & Hw' & Hnew & Hser & Hset)]].
  1,2: destruct (setValue_body_fault_frame w id (props h) value)
         as (e & new & -> & _); [by eauto|];
       eexists _, (localStorage win); split; [done|]; simpl; rewrite Hw;
       repeat split; [by destruct win|apply same_instances_log].
  rewrite (setValue_body_written _ _ _ _ _ _ _ _ _ Hw' Hnew Hser Hset).
  destruct (newValue_of_frame _ _ _ _ _ Hnew) as (new & -> & _).
  assert (win' = win) as -> by congruence.
  match goal with
  | |- context [run_listeners ?ls ?ev ?wd] =>
      destruct (run_listeners_frame ls ev wd) as (w' & -> & Hwin & _ & Hs)
  end.
  destruct (Storage_setItem_quota _ _ _ _ Hset) as [Hq _].
  simpl in Hwin. rewrite Hw in Hwin. simpl in Hwin.
  exists w', st'. repeat split; [done..|].
  eapply same_instances_trans; [|exact Hs].
  intros id'. exact (same_instances_set_state id nv w id').
Qed.

(** X8.  The last write wins: over a store without bound, whatever an earlier
    call of [setValue] was given and however it went, a later
    [setValue(v)] with a value that reads back as [v] is what a fresh
    instance finds. *)
Theorem last_write_wins w win id h earlier v :
  window w = Some win ->
  quota (localStorage win) = None ->
  hooks w !! id = Some h ->
  committed h = true ->
  opt_serializer (options (props h)) = None ->
  representable v ->
  exists w1 w2,
    setValue id earlier w = (Ok tt, w1)
    /\ setValue id (Direct v) w1 = (Ok tt, w2)
    /\ forall id' init',
         exists w3,
           useLocalStorage_render id'
             (mkProps (key (props h)) init' default_options) w2
           = (Ok v, w3).
Proof.
  intros Hw Hq Hh Hc Hser (s & Hs & Hne & Hnu & Hparse).
  destruct (setValue_browser_frame w win id h earlier Hw Hh Hc)
    as (w1 & st & Hrun1 & Hw1 & Hq1 & Hsame).
  destruct (same_instances_lookup _ _ _ _ Hsame Hh) as (h1 & Hh1 & Hp1 & Hc1).
  rewrite Hc in Hc1.
  destruct (setValue_then_render w1 _ id h1 v (Some s) Hw1 Hh1 Hc1)
    as (w2 & Hrun2 & Hst & Hrender).
  { unfold serializer. by rewrite Hp1, Hser. }
  { simpl. by rewrite Hq1, Hq. }
  exists w1, w2. split; [done|]. split; [done|]. intros id' init'.
  rewrite Hp1 in Hst, Hrender.
  destruct (Hrender id' (mkProps (key (props h)) init' default_options) eq_refl)
    as (w3 & ->).
  exists w3. simpl. f_equal. f_equal.
  rewrite (read_outcome_stored
             (mkProps (key (props h)) init' default_options) w2 _ Hst).
  simpl. rewrite bool_decide_eq_false_2 by done. unfold deserialized. simpl.
  rewrite bool_decide_eq_false_2 by done. by rewrite Hparse.
Qed.

End WriteProperties.

Section ReadAndRemove.
Context {T : Type} `{!Platform T}.
Implicit Types (w : World T) (p : Props T).

(** X9.  [readValue] never throws and never writes: in every world and for all
    options, a custom deserializer that throws included, it returns a
    value; the store, the instances and the listeners are as before; what
    it leaves on the trace is reads and console calls; and without a
    browser it leaves nothing at all. *)
Theorem readValue_never_throws_nor_writes p w :
  exists v new,
    readValue p w = (Ok v, log new w)
    /\ filter (fun x => is_write x = true) new = []
    /\ (window w = None -> v = resolve (initialValue p) /\ new = []).
Proof.
  exists (read_outcome p w).1, (read_outcome p w).2.
  split; [apply readValue_outcome|]. split.
  - apply filter_quiet, read_outcome_quiet.
  - intros Hw. unfold read_outcome. by rewrite Hw.
Qed.

(** X10.  A notification dispatched on the window, from this document or from
    another one, brings every instance that listens for its type and that
    it concerns to the value a read of the store returns at that time; the
    store itself is not touched. *)
Theorem dispatched_notification_refreshes_listener w win ev id h :
  window w = Some win ->
  hooks w !! id = Some h ->
  subscribed id (ev_type ev) w ->
  ev_key ev = None \/ ev_key ev = Some "" \/ ev_key ev = Some (key (props h)) ->
  exists w' v w_r,
    window_dispatchEvent ev w = (Ok tt, w')
    /\ readValue (props h) w = (Ok v, w_r)
    /\ state_of id w' = Some v
    /\ window w' = window w.
Proof.
  intros Hw Hh (o & Hin) Hc. apply concerns_spec in Hc.
  unfold listeners_of in Hin. rewrite Hw in Hin. simpl in Hin.
  unfold window_dispatchEvent. mrun. rewrite Hw. simpl.
  destruct (run_listeners_syncs (win_listeners win) ev
              (push (DispatchEvent ev) w) id h _ Hin)
    as (w' & Hrun & (Hwin & _) & Hst); [done..|].
  exists w', (read_outcome (props h) w).1, (log (read_outcome (props h) w).2 w).
  split; [done|]. split; [apply readValue_outcome|].
  rewrite read_outcome_push in Hst. simpl in Hwin. by rewrite <- Hw.
Qed.

(** The world in which the listeners run after [removeItem]. *)
Lemma removed_world id p w win :
  window w = Some win ->
  let wd := push (DispatchEvent (mkEvent "local-storage" (Some (key p))))
              (set_state id (resolve (initialValue p))
                 (with_storage (Storage_removeItem (key p) (localStorage win))
                    (push (RemoveItem (key p)) w))) in
  stored (key p) wd = None
  /\ other_entries (key p) wd = other_entries (key p) w
  /\ window wd
     = Some (mkWindow (Storage_removeItem (key p) (localStorage win))
               (win_listeners win)).
Proof.
  intros Hw wd. unfold wd, stored, other_entries. simpl. rewrite Hw. simpl.
  repeat split.
  - apply lookup_delete_eq.
  - by rewrite delete_delete_eq.
Qed.

(** X11.  In a browser [removeValue] resets every instance bound to the key
    that listens in the same document, and the caller: the entry is gone,
    and each of them holds its own resolved initial value. *)
Theorem removeValue_resets_every_listening_instance w win id h :
  window w = Some win ->
  hooks w !! id = Some h ->
  committed h = true ->
  exists w',
    removeValue id w = (Ok tt, w')
    /\ stored (key (props h)) w' = None
    /\ forall id2 h2,
         hooks w !! id2 = Some h2 ->
         key (props h2) = key (props h) ->
         id2 = id \/ subscribed id2 "local-storage" w ->
         state_of id2 w' = Some (resolve (initialValue (props h2))).
Proof.
  intros Hw Hh Hc.
  rewrite (removeValue_committed _ _ _ Hh Hc).
  rewrite (removeValue_body_removed _ _ _ _ Hw).
  destruct (removed_world id (props h) w win Hw) as (Hgone & _ & Hwd).
  set (ev := mkEvent _ _) in *. set (wd := push (DispatchEvent ev) _) in *.
  destruct (run_listeners_frame (win_listeners win) ev wd)
    as (w' & Hrun & Hwin & _).
  exists w'. split; [done|]. split.
  { unfold stored in *. by rewrite Hwin. }
  intros id2 h2 Hh2 Hk Hlisten.
  assert (Hread : (read_outcome (props h2) wd).1
                  = resolve (initialValue (props h2))).
  { apply read_outcome_absent. by rewrite Hk. }
  destruct Hlisten as [->|(o & Hin)].
  - simplify_eq.
    destruct (run_listeners_keeps_synced (win_listeners win) ev wd wd id
                (props h)) as (w'' & Hrun' & _ & Hst).
    + apply dispatch_frame_refl.
    + exists (mkHook (props h) (resolve (initialValue (props h))) (committed h)).
      split; [|by split].
      unfold wd. simpl. by rewrite lookup_alter_eq, Hh.
    + rewrite Hrun in Hrun'. injection Hrun' as <-. by rewrite Hst, Hread.
  - unfold listeners_of in Hin. rewrite Hw in Hin. simpl in Hin.
    assert (Hh2d : exists h2', hooks wd !! id2 = Some h2'
                               /\ props h2' = props h2).
    { unfold wd. simpl. destruct (decide (id2 = id)) as [->|Hne2].
      - rewrite lookup_alter_eq, Hh2. simpl. eauto.
      - rewrite lookup_alter_ne, Hh2 by done. eauto. }
    destruct Hh2d as (h2' & Hh2' & Hp2').
    destruct (run_listeners_syncs (win_listeners win) ev wd id2 h2' _ Hin)
      as (w'' & Hrun' & _ & Hst); [done..| |].
    { rewrite Hp2', Hk. simpl. apply orb_true_iff. right.
      by apply bool_decide_eq_true_2. }
    rewrite Hrun in Hrun'. injection Hrun' as <-.
    by rewrite Hst, Hp2', Hread.
Qed.

(** X12.  A removal under [k] stays under [k]: the entries of the store under
    other keys are as before, and when [k] is not the empty text, so are
    the instances bound to other keys. *)
Theorem removeValue_leaves_other_keys w win id h :
  window w = Some win ->
  hooks w !! id = Some h ->
  committed h = true ->
  exists w',
    removeValue id w = (Ok tt, w')
    /\ other_entries (key (props h)) w' = other_entries (key (props h)) w
    /\ (key (props h) <> "" ->
        forall id2 h2,
          hooks w !! id2 = Some h2 ->
          key (props h2) <> key (props h) ->
          hooks w' !! id2 = Some h2).
Proof.
  intros Hw Hh Hc.
  rewrite (removeValue_committed _ _ _ Hh Hc).
  rewrite (removeValue_body_removed _ _ _ _ Hw).
  destruct (removed_world id (props h) w win Hw) as (_ & Hother & _).
  set (ev := mkEvent _ _) in *. set (wd := push (DispatchEvent ev) _) in *.
  destruct (run_listeners_frame (win_listeners win) ev wd)
    as (w' & Hrun & Hwin & _).
  exists w'. split; [done|]. split.
  - unfold other_entries in *. by rewrite Hwin.
  - intros Hk id2 h2 Hh2 Hne.
    destruct (run_listeners_passes_by (win_listeners win) (key (props h)) wd
                id2 h2 Hk) as (w'' & Hrun' & _ & Hh2'); [|done|].
    + unfold wd. simpl. rewrite lookup_alter_ne; [done|].
      intros ->. simplify_eq.
    + fold ev in Hrun'. rewrite Hrun in Hrun'. by injection Hrun' as <-.
Qed.

End ReadAndRemove.

Section LifecycleProperties.
Context {T : Type} `{!Platform T}.
Implicit Types (w : World T) (p : Props T).

(** X13.  Mounting in a browser: the first render returns what the store says,
    or, with [initializeWithValue: false], the resolved initial value
    without looking at the store; either way the effects leave the
    instance holding what the store says, with its callbacks in place and
    listening for both notifications on the window.  The store is not
    written. *)
Theorem mount_subscribes_and_reconciles w win id p :
  window w = Some win ->
  exists v w_r w',
    readValue p w = (Ok v, w_r)
    /\ mount id p w
       = (Ok (if default true (opt_initializeWithValue (options p)) then v
              else resolve (initialValue p)), w')
    /\ hooks w' !! id = Some (mkHook p v true)
    /\ window w'
       = Some (mkWindow (localStorage win)
                 (win_listeners win
                  ++ [ mkListener "storage" (HandleStorageChange id) None;
                       mkListener "local-storage" (HandleStorageChange id)
                         None ])).
Proof.
  intros Hw. rewrite readValue_outcome.
  exists (read_outcome p w).1, (log (read_outcome p w).2 w).
  unfold mount, useLocalStorage_render, useLocalStorage_effects, initial_state.
  assert (Hsame : forall hs tr,
             read_outcome p (mkWorld (Some win) (objects w) hs tr)
             = read_outcome p w).
  { intros hs tr. apply read_outcome_window. by rewrite Hw. }
  destruct (default true (opt_initializeWithValue (options p))).
  - mrun. rewrite readValue_outcome. simpl. rewrite lookup_insert_eq.
    rewrite readValue_outcome. simpl.
    unfold useEventListener_effect, targetElement_of, addEventListener,
      setStoredValue. mrun. rewrite Hw. simpl. rewrite !Hsame.
    eexists. split; [done|]. split; [done|]. simpl.
    rewrite lookup_alter_eq, lookup_insert_eq. simpl.
    split; [done|]. by rewrite <- app_assoc.
  - mrun. rewrite lookup_insert_eq.
    rewrite readValue_outcome. simpl.
    unfold useEventListener_effect, targetElement_of, addEventListener,
      setStoredValue. mrun. rewrite Hw. simpl. rewrite ?Hsame.
    eexists. split; [done|]. split; [done|]. simpl.
    rewrite lookup_alter_eq, lookup_insert_eq. simpl.
    split; [done|]. by rewrite <- app_assoc.
Qed.

(** X14.  A later render returns the in-memory value as it is.  When the key is
    the same, nothing else happens: the store is not read, whatever the
    new initial value and options are.  When the key has changed, that
    render still returns the value of the old key, and the effect then
    replaces it by what a read under the new key returns. *)
Theorem rerender_reads_again_only_when_key_changed w id h p' :
  hooks w !! id = Some h ->
  exists w',
    rerender id p' w = (Ok (storedValue h), w')
    /\ window w' = window w
    /\ (key p' = key (props h) ->
        w' = mkWorld (window w) (objects w)
               (<[id := mkHook p' (storedValue h) true]> (hooks w)) (trace w))
    /\ (key p' <> key (props h) ->
        exists v w_r,
          readValue p' w = (Ok v, w_r)
          /\ hooks w' !! id = Some (mkHook p' v true)).
Proof.
  intros Hh. unfold rerender, useLocalStorage_rerender,
    useLocalStorage_rerender_effects. mrun. rewrite Hh. simpl. rewrite Hh.
  destruct (decide (key p' = key (props h))) as [Hk|Hk].
  - rewrite bool_decide_eq_true_2 by done. simpl.
    eexists. split; [done|]. split; [done|]. split; [done|]. by intros ?.
  - rewrite bool_decide_eq_false_2 by done. simpl.
    rewrite !readValue_outcome. unfold setStoredValue. mrun.
    eexists. split; [done|]. split; [done|]. split; [by intros ?|].
    intros _. eexists _, _. split; [done|]. simpl.
    by rewrite lookup_alter_eq, lookup_insert_eq.
Qed.

End LifecycleProperties.

Section SubscriptionProperties.
Context {T : Type} `{!Platform T}.
Implicit Types (w : World T).
#[local] Arguments can_listen : simpl never.

Lemma remove_first_added l ls :
  remove_first l (ls ++ [l]) ≡ₚ ls
  /\ (l ∉ ls -> remove_first l (ls ++ [l]) = ls).
Proof.
  induction ls as [|l' ls [IHp IHe]]; simpl.
  - rewrite decide_True by done. done.
  - destruct (decide (l' = l)) as [->|Hne].
    + split.
      * symmetry. apply Permutation_cons_append.
      * intros Hnot. exfalso. apply Hnot. by left.
    + split.
      * by constructor.
      * intros Hnot. f_equal. apply IHe. intros Hin. apply Hnot. by right.
Qed.

Lemma listeners_of_set_listeners t ls w :
  (t = TWindow -> is_Some (window w)) ->
  (forall n, t = TObject n -> is_Some (objects w !! n)) ->
  listeners_of t (set_listeners t ls w) = ls.
Proof.
  intros Hwin Hobj. destruct t as [|n]; simpl.
  - destruct (Hwin eq_refl) as [win ->]. done.
  - destruct (Hobj n eq_refl) as [o Ho]. by rewrite lookup_alter_eq, Ho.
Qed.

Lemma listeners_of_set_listeners_ne t t' ls w :
  t <> t' -> listeners_of t' (set_listeners t ls w) = listeners_of t' w.
Proof.
  intros Hne. destruct t as [|n], t' as [|n']; simpl; try done.
  rewrite lookup_alter_ne; [done|congruence].
Qed.

(** X15.  Subscribing and cleaning up again is a round trip.  Whenever the
    effect of [useEventListener] returns, be it with a cleanup or after its
    early return, running what it returned leaves every target with the
    listeners it had, up to their order; and exactly as they were when the
    listener is a new one for its target.  The store and the instances are
    never touched. *)
Theorem useEventListener_cleanup_restores_listeners
    w eventName handler element listenerOptions c w1 :
  useEventListener_effect eventName handler element listenerOptions w
  = (Ok c, w1) ->
  exists w2,
    run_cleanup c w1 = (Ok tt, w2)
    /\ hooks w2 = hooks w
    /\ localStorage <$> window w2 = localStorage <$> window w
    /\ (forall t, listeners_of t w2 ≡ₚ listeners_of t w)
    /\ (forall t,
          mkListener eventName handler listenerOptions ∉ listeners_of t w ->
          listeners_of t w2 = listeners_of t w).
Proof.
  set (l := mkListener eventName handler listenerOptions).
  assert (Hgo : forall t,
             (t = TWindow -> is_Some (window w)) ->
             can_listen t w = true ->
             exists w2,
               run_cleanup (Some (t, l))
                 (set_listeners t (listeners_of t w ++ [l])
                    (push (AddEventListener t l) w)) = (Ok tt, w2)
               /\ hooks w2 = hooks w
               /\ localStorage <$> window w2 = localStorage <$> window w
               /\ (forall t', listeners_of t' w2 ≡ₚ listeners_of t' w)
               /\ (forall t', l ∉ listeners_of t' w ->
                              listeners_of t' w2 = listeners_of t' w)).
  { intros t Hwin Hcan.
    assert (Hobj : forall n, t = TObject n -> is_Some (objects w !! n)).
    { intros n ->. unfold can_listen in Hcan. by destruct (objects w !! n). }
    unfold run_cleanup, removeEventListener. mrun.
    eexists. split; [done|].
    set (w1' := set_listeners t _ (push _ w)).
    assert (H1 : listeners_of t w1' = listeners_of t w ++ [l]).
    { unfold w1'. apply listeners_of_set_listeners; [intros ?|intros n ?].
      - simpl. by apply Hwin.
      - simpl. by apply Hobj. }
    destruct (remove_first_added l (listeners_of t w)) as [Hperm Heq].
    assert (Hlist : forall t',
               listeners_of t'
                 (set_listeners t (remove_first l (listeners_of t (push (RemoveEventListener t l) w1')))
                    (push (RemoveEventListener t l) w1'))
               = if decide (t = t')
                 then remove_first l (listeners_of t w ++ [l])
                 else listeners_of t' w).
    { intros t'. destruct (decide (t = t')) as [<-|Hne].
      - rewrite listeners_of_set_listeners.
        + change (listeners_of t (push (RemoveEventListener t l) w1'))
            with (listeners_of t w1'). by rewrite H1.
        + intros ->. unfold w1'. simpl.
          destruct (Hwin eq_refl) as [win ->]. by eexists.
        + intros n ->. unfold w1'. simpl.
          destruct (Hobj n eq_refl) as [o Ho].
          rewrite lookup_alter_eq, Ho. by eexists.
      - rewrite listeners_of_set_listeners_ne by done.
        change (listeners_of t' (push (RemoveEventListener t l) w1'))
          with (listeners_of t' w1').
        unfold w1'. by rewrite listeners_of_set_listeners_ne. }
    split; [|split; [|split]].
    - by destruct t.
    - destruct t as [|n]; simpl; [|done].
      destruct (window w); done.
    - intros t'. rewrite Hlist. by case_decide; subst.
    - intros t' Hnot. rewrite Hlist. case_decide; subst; [by apply Heq|done]. }
  unfold useEventListener_effect, targetElement_of, addEventListener.
  destruct (element ≫= current) as [n|] eqn:Hel; mrun.
  - destruct (can_listen (TObject n) w) eqn:Hcan; simpl.
    + intros [= <- <-]. apply (Hgo (TObject n)); [done|done].
    + intros [= <- <-]. by exists w.
  - destruct (window w) as [win|] eqn:Hw; simpl; [|done].
    intros [= <- <-]. apply (Hgo TWindow); [intros _; by eexists|done].
Qed.

(** X16.  A ref that holds an object with [addEventListener] keeps the window
    out of it: the listener goes onto that object and nowhere else, also
    where there is no window at all. *)
Theorem useEventListener_on_element_leaves_window_alone
    w n o eventName handler listenerOptions :
  objects w !! n = Some o ->
  has_addEventListener o = true ->
  let listener := mkListener eventName handler listenerOptions in
  exists w1,
    useEventListener_effect eventName handler (Some (mkRef (Some n)))
      listenerOptions w
    = (Ok (Some (TObject n, listener)), w1)
    /\ window w1 = window w
    /\ hooks w1 = hooks w
    /\ listeners_of (TObject n) w1 = obj_listeners o ++ [listener]
    /\ forall t, t <> TObject n -> listeners_of t w1 = listeners_of t w.
Proof.
  intros Ho Hcan listener.
  assert (Hlisten : can_listen (TObject n) w = true).
  { unfold can_listen. by rewrite Ho. }
  unfold useEventListener_effect, targetElement_of, addEventListener.
  unfold mbind, M_bind, mret, M_ret, emit, modify, gets. cbn -[can_listen lookup alter].
  rewrite Hlisten. simpl. eexists. split; [done|]. simpl.
  split; [done|]. split; [done|]. split.
  - by rewrite lookup_alter_eq, Ho.
  - intros [|n'] Hne; simpl; [done|].
    rewrite lookup_alter_ne; [done|congruence].
Qed.

End SubscriptionProperties.

(** ** The properties at work on the scenarios *)

Import Scenes.

Lemma setValue_never_throws_witness :
  exists w',
    setValue 0 failing (mounted theme full_browser) = (Ok tt, w')
    /\ same_instances (mounted theme full_browser) w'
    /\ objects w' = objects (mounted theme full_browser)
    /\ listeners_of TWindow w' = listeners_of TWindow (mounted theme full_browser)
    /\ quota_of w' = quota_of (mounted theme full_browser).
Proof.
  apply (setValue_never_throws (mounted theme full_browser) 0
           (mkHook theme (JStr "light") true) failing);
    vm_compute; reflexivity.
Defined.

Lemma setValue_updater_fault_is_absorbed_witness :
  let w := mounted theme (browser [("theme", quote "dark")]) in
  exists new,
    setValue 0 failing w
    = (Ok tt,
       log (ConsoleWarn (warn_setting "theme") (Some (Error "no next value"))
            :: new) w)
    /\ filter (fun x => is_write x = true) new = [].
Proof.
  intros w.
  apply (setValue_updater_fault_is_absorbed w 0
           (mkHook theme (JStr "dark") true)
           (fun _ => Throw (Error "no next value"))
           (JStr "dark") (push (GetItem "theme") w) (Error "no next value"));
    vm_compute; reflexivity.
Defined.

Lemma setValue_reaches_every_listening_instance_witness :
  exists w1,
    setValue 0 (Direct (JStr "dark")) two_themes = (Ok tt, w1) /\
    forall id2 h2,
      hooks two_themes !! id2 = Some h2 ->
      key (props h2) = "theme" ->
      opt_deserializer (options (props h2)) = None ->
      id2 = 0 \/ subscribed id2 "local-storage" two_themes ->
      state_of id2 w1 = Some (JStr "dark").
Proof.
  apply (setValue_reaches_every_listening_instance two_themes
           (mkWindow (mkStorage ∅ None) (subscriptions ++ subscriptions1))
           0 (mkHook theme (JStr "light") true) (JStr "dark")).
  - vm_compute. reflexivity.
  - vm_compute. reflexivity.
  - reflexivity.
  - reflexivity.
  - by apply proper_representable.
  - intros s _. reflexivity.
Defined.

Lemma setValue_leaves_other_keys_witness :
  exists w',
    setValue 0 (Direct (JStr "dark")) theme_and_count = (Ok tt, w')
    /\ other_entries "theme" w' = other_entries "theme" theme_and_count
    /\ ("theme" <> "" ->
        forall id2 h2,
          hooks theme_and_count !! id2 = Some h2 ->
          key (props h2) <> "theme" ->
          hooks w' !! id2 = Some h2).
Proof.
  apply (setValue_leaves_other_keys theme_and_count 0
           (mkHook theme (JStr "light") true) (Direct (JStr "dark")));
    vm_compute; reflexivity.
Defined.

Lemma setValue_without_json_text_reads_back_undefined_witness :
  exists w1,
    setValue 0 (Direct JUndefined) (mounted theme (browser [])) = (Ok tt, w1)
    /\ stored "theme" w1 = Some "undefined"
    /\ forall id' init',
         exists w2,
           useLocalStorage_render id' (mkProps "theme" init' default_options) w1
           = (Ok JUndefined, w2).
Proof.
  exact (setValue_without_json_text_reads_back_undefined
           (mounted theme (browser []))
           (mkWindow (mkStorage ∅ None) subscriptions)
           0 (mkHook theme (JStr "light") true) JUndefined
           ltac:(vm_compute; reflexivity) ltac:(vm_compute; reflexivity)
           ltac:(reflexivity) ltac:(reflexivity) ltac:(reflexivity)
           ltac:(reflexivity)).
Defined.

Lemma custom_codec_roundtrip_witness :
  exists w1,
    setValue 0 (Direct (JStr "Ada")) (mounted name (browser [])) = (Ok tt, w1)
    /\ forall id' init' ser',
         exists w2,
           useLocalStorage_render id'
             (mkProps "name" init' (mkOptions ser' (Some raw_deserializer) None))
             w1
           = (Ok (JStr "Ada"), w2).
Proof.
  apply (custom_codec_roundtrip (mounted name (browser []))
           (mkWindow (mkStorage ∅ None) subscriptions)
           0 (mkHook name (JStr "nobody") true) (JStr "Ada")
           raw_serializer "Ada" raw_deserializer);
    try (vm_compute; reflexivity).
  vm_compute. congruence.
Defined.

Lemma empty_serialized_text_reads_as_initial_witness :
  exists w1,
    setValue 0 (Direct (JStr "")) (mounted name (browser [])) = (Ok tt, w1)
    /\ stored "name" w1 = Some ""
    /\ forall id' p',
         key p' = "name" ->
         exists w2,
           useLocalStorage_render id' p' w1
           = (Ok (resolve (initialValue p')), w2).
Proof.
  apply (empty_serialized_text_reads_as_initial (mounted name (browser []))
           (mkWindow (mkStorage ∅ None) subscriptions)
           0 (mkHook name (JStr "nobody") true) (JStr "") raw_serializer);
    vm_compute; reflexivity.
Defined.

Lemma last_write_wins_witness :
  exists w1 w2,
    setValue 0 failing (mounted theme (browser [])) = (Ok tt, w1)
    /\ setValue 0 (Direct (JStr "dark")) w1 = (Ok tt, w2)
    /\ forall id' init',
         exists w3,
           useLocalStorage_render id' (mkProps "theme" init' default_options) w2
           = (Ok (JStr "dark"), w3).
Proof.
  apply (last_write_wins (mounted theme (browser []))
           (mkWindow (mkStorage ∅ None) subscriptions)
           0 (mkHook theme (JStr "light") true) failing (JStr "dark")).
  - vm_compute. reflexivity.
  - reflexivity.
  - vm_compute. reflexivity.
  - reflexivity.
  - reflexivity.
  - by apply proper_representable.
Defined.

Lemma dispatched_notification_refreshes_listener_witness :
  let w := written_elsewhere "theme" (quote "dark") (mounted theme (browser [])) in
  let ev := mkEvent "storage" (Some "theme") in
  exists w' v w_r,
    window_dispatchEvent ev w = (Ok tt, w')
    /\ readValue theme w = (Ok v, w_r)
    /\ state_of 0 w' = Some v
    /\ window w' = window w.
Proof.
  intros w ev.
  apply (dispatched_notification_refreshes_listener w
           (mkWindow (mkStorage {[ "theme" := quote "dark" ]} None) subscriptions)
           ev 0 (mkHook theme (JStr "light") true)).
  - vm_compute. reflexivity.
  - vm_compute. reflexivity.
  - exists None. vm_compute. apply list_elem_of_here.
  - right. right. reflexivity.
Defined.

Lemma removeValue_resets_every_listening_instance_witness :
  let w := after (setValue 0 (Direct (JStr "dark"))) two_themes in
  exists w',
    removeValue 1 w = (Ok tt, w')
    /\ stored "theme" w' = None
    /\ forall id2 h2,
         hooks w !! id2 = Some h2 ->
         key (props h2) = "theme" ->
         id2 = 1 \/ subscribed id2 "local-storage" w ->
         state_of id2 w' = Some (resolve (initialValue (props h2))).
Proof.
  intros w.
  apply (removeValue_resets_every_listening_instance w
           (mkWindow (mkStorage {[ "theme" := quote "dark" ]} None)
              (subscriptions ++ subscriptions1))
           1 (mkHook theme (JStr "dark") true));
    vm_compute; reflexivity.
Defined.

Lemma removeValue_leaves_other_keys_witness :
  let w := after (setValue 1 increment) theme_and_count in
  exists w',
    removeValue 0 w = (Ok tt, w')
    /\ other_entries "theme" w' = other_entries "theme" w
    /\ ("theme" <> "" ->
        forall id2 h2,
          hooks w !! id2 = Some h2 ->
          key (props h2) <> "theme" ->
          hooks w' !! id2 = Some h2).
Proof.
  intros w.
  apply (removeValue_leaves_other_keys w
           (mkWindow (mkStorage {[ "count" := "1" ]} None)
              (subscriptions ++ subscriptions1))
           0 (mkHook theme (JStr "light") true));
    vm_compute; reflexivity.
Defined.

Lemma mount_subscribes_and_reconciles_witness :
  let w := browser [("theme", quote "dark")] in
  let p := mkProps "theme" (Literal (JStr "light"))
             (mkOptions None None (Some false)) in
  exists v w_r w',
    readValue p w = (Ok v, w_r)
    /\ mount 0 p w = (Ok (JStr "light"), w')
    /\ hooks w' !! 0 = Some (mkHook p v true)
    /\ window w'
       = Some (mkWindow (mkStorage {[ "theme" := quote "dark" ]} None)
                 subscriptions).
Proof.
  intros w p.
  apply (mount_subscribes_and_reconciles w
           (mkWindow (mkStorage {[ "theme" := quote "dark" ]} None) []) 0 p).
  vm_compute. reflexivity.
Defined.

Lemma rerender_reads_again_only_when_key_changed_witness :
  let w := mounted theme (browser [("count", "7")]) in
  exists w',
    rerender 0 count w = (Ok (JStr "light"), w')
    /\ window w' = window w
    /\ ("count" = "theme" ->
        w' = mkWorld (window w) (objects w)
               (<[0 := mkHook count (JStr "light") true]> (hooks w)) (trace w))
    /\ ("count" <> "theme" ->
        exists v w_r,
          readValue count w = (Ok v, w_r)
          /\ hooks w' !! 0 = Some (mkHook count v true)).
Proof.
  intros w.
  apply (rerender_reads_again_only_when_key_changed w 0
           (mkHook theme (JStr "light") true) count).
  vm_compute. reflexivity.
Defined.

Lemma useEventListener_cleanup_restores_listeners_witness :
  let w := mounted theme (browser []) in
  let l := mkListener "resize" (UserHandler 3) None in
  exists w2,
    run_cleanup (Some (TWindow, l))
      (after (useEventListener_effect "resize" (UserHandler 3) None None) w)
    = (Ok tt, w2)
    /\ hooks w2 = hooks w
    /\ localStorage <$> window w2 = localStorage <$> window w
    /\ (forall t, listeners_of t w2 ≡ₚ listeners_of t w)
    /\ (forall t, l ∉ listeners_of t w -> listeners_of t w2 = listeners_of t w).
Proof.
  intros w l.
  apply (useEventListener_cleanup_restores_listeners w "resize" (UserHandler 3)
           None None (Some (TWindow, l))).
  vm_compute. reflexivity.
Defined.

Lemma useEventListener_on_element_leaves_window_alone_witness :
  let listener := mkListener "click" (UserHandler 7) (Some true) in
  exists w1,
    useEventListener_effect "click" (UserHandler 7) (Some (mkRef (Some 5)))
      (Some true) windowless_page
    = (Ok (Some (TObject 5, listener)), w1)
    /\ window w1 = window windowless_page
    /\ hooks w1 = hooks windowless_page
    /\ listeners_of (TObject 5) w1 = [] ++ [listener]
    /\ forall t, t <> TObject 5 ->
                 listeners_of t w1 = listeners_of t windowless_page.
Proof.
  apply (useEventListener_on_element_leaves_window_alone windowless_page 5
           (mkDomObject true []) "click" (UserHandler 7) (Some true));
    vm_compute; reflexivity.
Defined.

Section BeforeEffects.
Context {T : Type} `{!Platform T}.

(** X17.  Between the first render and its effects the callbacks are not yet
    usable: the render always returns, with the store as it was, and a
    call of [setValue] or [removeValue] made before the layout effects
    have run throws [Cannot call an event handler while rendering.]
    and changes nothing; [setValue] does not catch that fault. *)
Theorem callbacks_throw_before_effects id p w :
  exists s w1,
    useLocalStorage_render id p w = (Ok s, w1)
    /\ window w1 = window w
    /\ (forall value,
          setValue id value w1
          = (Throw (Error "Cannot call an event handler while rendering."),
             w1))
    /\ removeValue id w1
       = (Throw (Error "Cannot call an event handler while rendering."), w1).
Proof.
  unfold useLocalStorage_render, initial_state.
  destruct (default true (opt_initializeWithValue (options p))).
  - unfold mbind, M_bind. rewrite readValue_outcome. mrun.
    eexists _, _. split; [done|]. simpl. split; [done|].
    unfold setValue, removeValue. simpl. rewrite lookup_insert_eq. by split.
  - mrun. eexists _, _. split; [done|]. simpl. split; [done|].
    unfold setValue, removeValue. simpl. rewrite lookup_insert_eq. by split.
Qed.

End BeforeEffects.

(** ** Counting, and the routes *)

Section Counting.

(** The shape that the world of the mounted counter keeps. *)
Lemma incremented_shape n :
  exists st h,
    window (incremented n) = Some (mkWindow st subscriptions)
    /\ quota st = None
    /\ items st !! "count"
       = match n with
         | O => None
         | S _ => Some (number_text (Z.of_nat n))
         end
    /\ hooks (incremented n) !! 0 = Some h
    /\ props h = count
    /\ committed h = true
    /\ storedValue h = JNum (Z.of_nat n).
Proof.
  induction n as [|n (st & h & Hw & Hq & Hitem & Hh & Hp & Hc & Hv)].
  - exists (mkStorage ∅ None), (mkHook count (JNum 0) true).
    vm_compute. by repeat split.
  - set (w := incremented n) in *.
    change (incremented (S n)) with (after (setValue 0 increment) w).
    assert (Hprev : read_outcome count w = (JNum (Z.of_nat n), [GetItem "count"])).
    { destruct n as [|n'].
      - unfold read_outcome. rewrite Hw. simpl.
        unfold Storage_getItem. by rewrite Hitem.
      - destruct (stringify_is_json_text (JNum (Z.of_nat (S n'))) _ eq_refl)
          as [Hne Hnu].
        eapply read_outcome_parsed; [exact Hw|exact Hitem|done..|].
        apply parse_number_text. }
    set (text := number_text (Z.of_nat (S n))).
    set (st' := mkStorage (<["count" := text]> (items st)) None).
    assert (Hrun : setValue 0 increment w
                   = run_listeners subscriptions
                       (mkEvent "local-storage" (Some "count"))
                       (push (DispatchEvent (mkEvent "local-storage" (Some "count")))
                          (set_state 0 (JNum (Z.of_nat (S n)))
                             (with_storage st'
                                (push (SetItem "count" text)
                                   (log [GetItem "count"] w)))))).
    { rewrite (setValue_committed _ _ _ _ Hh Hc), Hp.
      apply (setValue_body_written 0 count increment w
               (mkWindow st subscriptions)
               (JNum (Z.of_nat (S n))) (log [GetItem "count"] w)
               (Some text) st'); [done| |done|].
      - unfold increment. rewrite newValue_of_updater, Hprev. simpl.
        do 3 f_equal. lia.
      - unfold Storage_setItem. simpl. by rewrite Hq. }
    set (ev := mkEvent _ _) in Hrun. set (wd := push (DispatchEvent ev) _) in Hrun.
    assert (Hwd : window wd = Some (mkWindow st' subscriptions)).
    { unfold wd. simpl. by rewrite Hw. }
    assert (Hnext : read_outcome count wd
                    = (JNum (Z.of_nat (S n)), [GetItem "count"])).
    { destruct (stringify_is_json_text (JNum (Z.of_nat (S n))) _ eq_refl)
        as [Hne Hnu].
      eapply read_outcome_parsed; [exact Hwd| |done..|].
      - unfold Storage_getItem, st'. simpl. apply lookup_insert_eq.
      - apply parse_number_text. }
    destruct (run_listeners_syncs subscriptions ev wd 0
                (mkHook count (JNum (Z.of_nat (S n))) true)
                (mkListener "local-storage" (HandleStorageChange 0) None))
      as (w' & Hrun' & (Hwin & _ & Hsame) & Hst).
    + apply list_elem_of_further, list_elem_of_here.
    + done.
    + done.
    + unfold wd. simpl. rewrite lookup_alter_eq, Hh. simpl.
      by rewrite Hp, Hc.
    + done.
    + assert (Hafter : after (setValue 0 increment) w = w').
      { unfold after. by rewrite Hrun, Hrun'. }
      rewrite Hafter.
      destruct (same_instances_lookup wd w' 0
                  (mkHook count (JNum (Z.of_nat (S n))) true) Hsame)
        as (h' & Hh' & Hp' & Hc').
      { unfold wd. simpl. rewrite lookup_alter_eq, Hh. simpl.
        by rewrite Hp, Hc. }
      exists st', h'. rewrite Hwin, Hwd.
      repeat split; [|done..|].
      * unfold st'. simpl. apply lookup_insert_eq.
      * simpl in Hst. rewrite Hnext in Hst. unfold state_of in Hst.
        rewrite Hh' in Hst. by injection Hst.
Qed.

(** X18.  No update is lost: after [n] calls [setValue(prev => prev + 1)]
    of a counter mounted over an empty store, the counter holds [n] and
    the store holds the text of [n], for every [n] up to [2^53], the range
    in which the numbers of JavaScript count exactly. *)
Theorem increments_add_up n :
  (Z.of_nat n <= 2 ^ 53)%Z ->
  state_of 0 (incremented n) = Some (JNum (Z.of_nat n))
  /\ stored "count" (incremented n)
     = match n with
       | O => None
       | S _ => Some (number_text (Z.of_nat n))
       end
  /\ exists w_r, readValue count (incremented n) = (Ok (JNum (Z.of_nat n)), w_r).
Proof.
  intros _.
  destruct (incremented_shape n) as (st & h & Hw & Hq & Hitem & Hh & Hp & Hc & Hv).
  split; [|split].
  - unfold state_of. by rewrite Hh, <- Hv.
  - unfold stored. rewrite Hw. done.
  - rewrite readValue_outcome. eexists. f_equal. f_equal.
    destruct n as [|n'].
    + unfold read_outcome. rewrite Hw. simpl.
      unfold Storage_getItem. by rewrite Hitem.
    + destruct (stringify_is_json_text (JNum (Z.of_nat (S n'))) _ eq_refl)
        as [Hne Hnu].
      rewrite (read_outcome_parsed count _ (JNum (Z.of_nat (S n'))) _ _
                 Hw Hitem eq_refl Hne Hnu); [done|].
      apply parse_number_text.
Qed.

End Counting.

Section RouteProperties.
Import Router Routes.

Lemma rev_app_rev_app s : forall a b,
  String.rev_app (String.rev_app s a) b = String.rev_app a (s +:+ b).
Proof.
  induction s as [|c s IH]; intros a b; [done|].
  change (String.rev_app (String c s) a) with (String.rev_app s (String c a)).
  by rewrite IH.
Qed.

Lemma append_empty_r s : s +:+ "" = s.
Proof.
  induction s as [|c s IH]; [done|].
  change (String c (s +:+ "") = String c s). by f_equal.
Qed.

Lemma rev_rev_app s : String.rev (String.rev_app s "") = s.
Proof.
  unfold String.rev. rewrite rev_app_rev_app. simpl. apply append_empty_r.
Qed.

Lemma rev_app_not_empty s cur :
  s <> "" \/ cur <> "" -> String.rev_app s cur <> "".
Proof.
  revert cur. induction s as [|c s IH]; intros cur [H|H]; simpl; try done.
  - by apply IH; right.
  - by apply IH; right.
Qed.

(** A text without slashes is one segment. *)
Lemma segments_aux_slash_free s : forall cur,
  slash_free s = true ->
  segments_aux s cur
  = if bool_decide (String.rev_app s cur = "") then []
    else [String.rev (String.rev_app s cur)].
Proof.
  induction s as [|c s IH]; intros cur Hs; [done|].
  simpl in Hs. apply andb_true_iff in Hs as [Hc Hs].
  apply negb_true_iff in Hc.
  cbn [segments_aux]. rewrite Hc. by rewrite IH.
Qed.

Lemma segments_customer id :
  id <> "" -> slash_free id = true ->
  segments ("/customers/" +:+ id) = ["customers"; id].
Proof.
  intros Hne Hs. unfold segments.
  change (segments_aux ("/customers/" +:+ id) "")
    with ("customers" :: segments_aux id "").
  rewrite segments_aux_slash_free by done.
  rewrite bool_decide_eq_false_2 by (apply rev_app_not_empty; by left).
  by rewrite rev_rev_app.
Qed.

Lemma plain_slash_free s : plain s = true -> slash_free s = true.
Proof.
  induction s as [|c s IH]; [done|]. simpl.
  intros [Hc Hs]%andb_true_iff. rewrite (IH Hs), andb_true_r.
  apply negb_true_iff, bool_decide_eq_false_2. intros ->.
  vm_compute in Hc. discriminate.
Qed.

(** X19.  Every customer id leads to the detail page inside the layout:
    for any non-empty [id] made of letters, digits, hyphens and
    underscores, the location [/customers/id] renders [Root] around
    [CustomerPage], whatever [id] spells. *)
Theorem customer_route_renders_detail id :
  id <> "" ->
  plain id = true ->
  rendered ("/customers/" +:+ id) = Some [Root; CustomerPage].
Proof.
  intros Hne Hs%plain_slash_free. unfold rendered.
  assert (Hmatch : matchRoutes router ("/customers/" +:+ id)
                   = Some [Root; CustomerPage]).
  { unfold matchRoutes. rewrite (segments_customer id Hne Hs).
    let bs := eval vm_compute in (rankRouteBranches (flattenRoutes router)) in
    change (rankRouteBranches (flattenRoutes router)) with bs.
    done. }
  let n := eval vm_compute in (length (flattenRoutes router)) in
  change (length (flattenRoutes router)) with n.
  cbn [navigate]. by rewrite Hmatch.
Qed.

(** X20.  A redirect always lands: whatever the location, what is rendered is
    one of the application's pages, never the bare [Navigate] element;
    and nothing is rendered only where the table matches nothing. *)
Theorem redirect_always_lands location :
  match rendered location with
  | Some chain => chain ∈ pages
  | None => matchRoutes router location = None
  end.
Proof.
  unfold rendered.
  let n := eval vm_compute in (length (flattenRoutes router)) in
  change (length (flattenRoutes router)) with n.
  cbn [navigate].
  destruct (matchRoutes router location) as [chain|] eqn:Hm; [|done].
  unfold matchRoutes in Hm.
  destruct (find _ _) as [b|] eqn:Hfind; [|done].
  apply find_some in Hfind as [Hin _]. simpl in Hm. injection Hm as <-.
  vm_compute in Hin.
  destruct Hin as [<-|[<-|[<-|[<-|[]]]]]; vm_compute;
    repeat first [apply list_elem_of_here | apply list_elem_of_further].
Qed.

End RouteProperties.

Lemma customer_route_renders_detail_witness :
  Router.rendered ("/customers/" +:+ "c-1042")
  = Some [Router.Root; Router.CustomerPage].
Proof.
  apply (customer_route_renders_detail "c-1042"); vm_compute;
    [congruence|reflexivity].
Defined.

Lemma increments_add_up_witness :
  state_of 0 (incremented 3) = Some (JNum 3)
  /\ stored "count" (incremented 3) = Some "3"
  /\ exists w_r, readValue count (incremented 3) = (Ok (JNum 3), w_r).
Proof.
  apply (increments_add_up 3). vm_compute. discriminate.
Defined.
